(** * fioconfig: the secret synchronisation engine of [internal/app.go]

    A shallow embedding of the Go code that fetches the encrypted
    configuration bundle, materialises its entries as secret files and
    persists the bundle, together with the properties the specification
    states about it.

    Two revisions of the file are embedded.  The current one (with the
    [CryptoHandler] interface, [updateSecret], [extract] and [checkin]) is at
    top level; the earlier one, kept under [internal/app.go], is in
    [Module Legacy]. *)

From Stdlib Require Import ZArith List Lia.
From stdpp Require Import base option list gmap strings pretty.

Local Open Scope string_scope.
Local Open Scope list_scope.
Local Open Scope Z_scope.

(** ** Go values *)

(** A call that panics has no result. *)
Inductive outcome (A : Type) : Type :=
| Returns (a : A)
| Panics (msg : string).
Arguments Returns {A} a.
Arguments Panics {A} msg.

Inductive errno : Set :=
| ENOENT | EACCES | EEXIST | EISDIR | ENOTDIR | ENOTEMPTY | ENOSPC | EIO.

Definition errno_text (e : errno) : string :=
  match e with
  | ENOENT => "no such file or directory"
  | EACCES => "permission denied"
  | EEXIST => "file exists"
  | EISDIR => "is a directory"
  | ENOTDIR => "not a directory"
  | ENOTEMPTY => "directory not empty"
  | ENOSPC => "no space left on device"
  | EIO => "input/output error"
  end.

#[global] Instance errno_eq_dec : EqDecision errno.
Proof. solve_decision. Defined.

(** Go [error] values: [*os.PathError], [*os.LinkError], the values of
    [errors.New] (compared by identity, so a constructor of their own) and
    the values of [fmt.Errorf], which carry the formatted text and, when
    the format has [%w] ([Errorw]), the error they wrap. *)
Inductive error : Type :=
| PathError (op path : string) (e : errno)
| LinkError (op old new : string) (e : errno)
| ErrorsNew (text : string)
| Errorf (text : string)
| Errorw (text : string) (wrapped : error).

(** [err.Error()] *)
Definition Error (err : error) : string :=
  match err with
  | PathError op path e => op +:+ " " +:+ path +:+ ": " +:+ errno_text e
  | LinkError op old new e =>
      op +:+ " " +:+ old +:+ " " +:+ new +:+ ": " +:+ errno_text e
  | ErrorsNew text => text
  | Errorf text => text
  | Errorw text _ => text
  end.

(** [os.IsNotExist]: looks at the error itself, not at what it wraps. *)
Definition os_IsNotExist (err : error) : bool :=
  match err with
  | PathError _ _ e | LinkError _ _ _ e => bool_decide (e = ENOENT)
  | _ => false
  end.

(** [errors.As(err, &perr)] for [perr : *os.PathError]: the first path error
    of the [Unwrap] chain. *)
Fixpoint errors_As_PathError (err : error) : option error :=
  match err with
  | PathError _ _ _ => Some err
  | Errorw _ inner => errors_As_PathError inner
  | _ => None
  end.

(** The result pair [(value, err)] of a Go call. *)
Inductive result (A : Type) : Type :=
| Ok (a : A)
| Err (e : error).
Arguments Ok {A} a.
Arguments Err {A} e.

(** ** The world: files, clock, environment and what has been done *)

Inductive node : Type :=
| File (content : string) (mode : Z) (mtime : Z)
| Dir (mtime : Z).

(** Why the environment refuses a system call that would otherwise go
    through.  (A missing file is not among them: that is decided by
    [nodes].) *)
Inductive cause : Set := Permission | NoSpace | IOFailure.

Definition cause_errno (c : cause) : errno :=
  match c with
  | Permission => EACCES
  | NoSpace => ENOSPC
  | IOFailure => EIO
  end.

(** What the environment makes of a system call: it fails, or (for a
    write) it fails after [n] bytes. *)
Inductive fault : Set :=
| Fail (c : cause)
| Short (n : nat) (c : cause).

Definition fault_errno (f : fault) : errno :=
  match f with Fail c | Short _ c => cause_errno c end.

Inductive event : Type :=
| EvLog (format : string) (args : list string)
| EvWriteFile (path data : string) (perm : Z)
| EvOpenFile (path : string) (perm : Z)
| EvCopy (path data : string)
| EvRename (old new : string)
| EvRemove (path : string)
| EvChtimes (path : string) (t : Z)
| EvExec (fname : string) (argv : list string) (config_file : string).

#[global] Instance event_eq_dec : EqDecision event.
Proof. solve_decision. Defined.

(** [nodes] is the file system, by path.  [faults] is the decision of the
    environment for each system call to come, in order ([None], or a list
    that has run out: no interference).  [trace] records, oldest first,
    the log lines, the changes made to the file system and the commands
    run. *)
Record World : Type := mkWorld {
  nodes : gmap string node;
  umask : Z;
  clock : Z;
  faults : list (option fault);
  trace : list event
}.

Definition set_nodes (m : gmap string node) (w : World) : World :=
  mkWorld m (umask w) (clock w) (faults w) (trace w).
Definition set_faults (fs : list (option fault)) (w : World) : World :=
  mkWorld (nodes w) (umask w) (clock w) fs (trace w).
Definition set_trace (t : list event) (w : World) : World :=
  mkWorld (nodes w) (umask w) (clock w) (faults w) t.

(** Go code that acts on the world. *)
Definition M (A : Type) : Type := World → A * World.

#[global] Instance M_ret : MRet M := fun A a w => (a, w).
#[global] Instance M_bind : MBind M := fun A B k m w =>
  let '(a, w') := m w in k a w'.

Definition ret {A} (a : A) : M A := mret a.

Definition next_fault : M (option fault) := fun w =>
  match faults w with
  | [] => (None, w)
  | f :: fs => (f, set_faults fs w)
  end.

Definition emit (e : event) : M unit := fun w =>
  (tt, set_trace (trace w ++ [e]) w).

Definition get_world : M World := fun w => (w, w).
Definition get_nodes : M (gmap string node) := fun w => (nodes w, w).
Definition put_nodes (m : gmap string node) : M unit := fun w =>
  (tt, set_nodes m w).

(** [log.Printf] and [log.Println] *)
Definition log_Printf (format : string) (args : list string) : M unit :=
  emit (EvLog format args).

(** [time.Now()] *)
Definition time_Now : M Z := fun w => (clock w, w).

Record FileInfo : Type := mkFileInfo { ModTime : Z; IsDir : bool }.

Definition node_info (n : node) : FileInfo :=
  match n with
  | File _ _ t => mkFileInfo t false
  | Dir t => mkFileInfo t true
  end.

(** [os.Stat] *)
Definition os_Stat (path : string) : M (result FileInfo) :=
  f ← next_fault;
  m ← get_nodes;
  match f, m !! path with
  | Some ft, _ => ret (Err (PathError "stat" path (fault_errno ft)))
  | None, None => ret (Err (PathError "stat" path ENOENT))
  | None, Some n => ret (Ok (node_info n))
  end.

(** [ioutil.ReadFile] *)
Definition ioutil_ReadFile (path : string) : M (result string) :=
  f ← next_fault;
  m ← get_nodes;
  match f, m !! path with
  | Some ft, _ => ret (Err (PathError "open" path (fault_errno ft)))
  | None, None => ret (Err (PathError "open" path ENOENT))
  | None, Some (Dir _) => ret (Err (PathError "read" path EISDIR))
  | None, Some (File c _ _) => ret (Ok c)
  end.

(** The file [path] after it has been opened with
    [O_WRONLY|O_CREATE|O_TRUNC] and mode [perm] and [data] written: a new
    file gets [perm] less the umask, an existing one keeps its mode. *)
Definition written (w : World) (path data : string) (perm : Z) : node :=
  match nodes w !! path with
  | Some (File _ mode _) => File data mode (clock w)
  | _ => File data (Z.land perm (Z.lnot (umask w))) (clock w)
  end.

Definition store (path data : string) (perm : Z) : M unit := fun w =>
  (tt, set_trace (trace w ++ [EvWriteFile path data perm])
         (set_nodes (<[path := written w path data perm]> (nodes w)) w)).

Definition take_bytes (n : nat) (s : string) : string :=
  String.substring 0 n s.

(** [ioutil.WriteFile]: open (create or truncate), write, close. *)
Definition ioutil_WriteFile (path data : string) (perm : Z) : M (option error) :=
  f ← next_fault;
  m ← get_nodes;
  match f, m !! path with
  | Some (Fail c), _ => ret (Some (PathError "open" path (cause_errno c)))
  | _, Some (Dir _) => ret (Some (PathError "open" path EISDIR))
  | Some (Short n c), _ =>
      store path (take_bytes n data) perm;;
      ret (Some (PathError "write" path (cause_errno c)))
  | None, _ => store path data perm ;; ret None
  end.

(** [os.Rename]: a directory in the way is refused, as is a directory moved
    over a file; otherwise [new] is replaced. *)
Definition os_Rename (old new : string) : M (option error) :=
  f ← next_fault;
  m ← get_nodes;
  match f, m !! old, m !! new with
  | Some ft, _, _ => ret (Some (LinkError "rename" old new (fault_errno ft)))
  | None, None, _ => ret (Some (LinkError "rename" old new ENOENT))
  | None, Some (File _ _ _), Some (Dir _) =>
      ret (Some (LinkError "rename" old new EEXIST))
  | None, Some (Dir _), Some (File _ _ _) =>
      ret (Some (LinkError "rename" old new ENOTDIR))
  | None, Some n, _ =>
      put_nodes (<[new := n]> (delete old m));;
      emit (EvRename old new);;
      ret None
  end.

(** [os.Remove] *)
Definition os_Remove (path : string) : M (option error) :=
  f ← next_fault;
  m ← get_nodes;
  match f, m !! path with
  | Some ft, _ => ret (Some (PathError "remove" path (fault_errno ft)))
  | None, None => ret (Some (PathError "remove" path ENOENT))
  | None, Some _ =>
      put_nodes (delete path m);;
      emit (EvRemove path);;
      ret None
  end.

Definition touched (n : node) (t : Z) : node :=
  match n with
  | File c mode _ => File c mode t
  | Dir _ => Dir t
  end.

(** [os.Chtimes(path, t, t)] *)
Definition os_Chtimes (path : string) (t : Z) : M (option error) :=
  f ← next_fault;
  m ← get_nodes;
  match f, m !! path with
  | Some ft, _ => ret (Some (PathError "chtimes" path (fault_errno ft)))
  | None, None => ret (Some (PathError "chtimes" path ENOENT))
  | None, Some n =>
      put_nodes (<[path := touched n t]> m);;
      emit (EvChtimes path t);;
      ret None
  end.

(** The mode written [0abc] in Go. *)
Definition octal (a b c : Z) : Z := a * 64 + b * 8 + c.

(** ** [idToBytes] *)

Definition bytes_of_string (s : string) : list Z :=
  map (fun c => Z.of_N (Ascii.N_of_ascii c)) (String.list_ascii_of_string s).

(** The loop of [idToBytes]: every byte becomes [char - '0'] (in [byte]
    arithmetic) and [start] is the index of the first one that is not 0. *)
Fixpoint idToBytes_loop (chars : list Z) (idx start : Z) : list Z * Z :=
  match chars with
  | [] => ([], start)
  | char :: rest =>
      let b := (char - 48) mod 256 in
      let start' := if negb (b =? 0) && (start =? -1) then idx else start in
      let '(bs, s) := idToBytes_loop rest (idx + 1) start' in
      (b :: bs, s)
  end.

(** [bytes[start:]] *)
Definition slice_from (bs : list Z) (start : Z) : outcome (list Z) :=
  if (start <? 0) || (Z.of_nat (length bs) <? start)
  then Panics "slice bounds out of range"
  else Returns (drop (Z.to_nat start) bs).

Definition idToBytes (id : string) : outcome (list Z) :=
  let '(bs, start) := idToBytes_loop (bytes_of_string id) 0 (-1) in
  slice_from bs start.

(** The value of the byte [char] once ['0'] is subtracted. *)
Definition digit (char : Z) : Z := (char - 48) mod 256.

Definition digits (id : string) : list Z := map digit (bytes_of_string id).

(** The spec's words: the leading zero digits are stripped. *)
Fixpoint strip_leading_zeros (ds : list Z) : list Z :=
  match ds with
  | d :: rest => if d =? 0 then strip_leading_zeros rest else ds
  | [] => []
  end.

(** Index of the first digit that is not zero. *)
Fixpoint first_nonzero (ds : list Z) : option nat :=
  match ds with
  | d :: rest => if d =? 0 then S <$> first_nonzero rest else Some 0%nat
  | [] => None
  end.

(** ** Bundles, requests and responses *)

(** Modelled from the spec: the declaration of [ConfigFile] is not in the
    sources at hand; an entry is "[{ value, onChange: ordered sequence of
    command-argument strings }]", read by the code as [cfgFile.Value] and
    [cfgFile.OnChanged]. *)
Record ConfigFile : Type := mkConfigFile {
  Value : string;
  OnChanged : list string
}.

#[global] Instance ConfigFile_eq_dec : EqDecision ConfigFile.
Proof. solve_decision. Defined.

(** Modelled from the spec: [ConfigStruct] is the "mapping from file name
    (string, unique) to SecretEntry".  [None] is the nil map.  The list is
    the map in the order in which a [range] loop visits it, which Go leaves
    open: a property of the code is one that holds for every order. *)
Definition ConfigStruct : Type := option (list (string * ConfigFile)).

Definition entries (c : ConfigStruct) : list (string * ConfigFile) :=
  default [] c.

Definition names (c : ConfigStruct) : list string := (entries c).*1.

Record configSnapshot : Type := mkSnapshot {
  prev : ConfigStruct;
  next : ConfigStruct
}.

Record Request : Type := mkRequest {
  Method : string;
  URL : string;
  Close : bool;
  ReqHeader : gmap string string
}.

(** An HTTP response; [Body] and [BodyErr] are what reading the body to
    its end gives: the bytes, and the error that ended the read if any. *)
Record Response : Type := mkResponse {
  StatusCode : Z;
  Header : gmap string string;
  Body : string;
  BodyErr : option error
}.

(** [res.Header.Get(key)] *)
Definition Header_Get (h : gmap string string) (key : string) : string :=
  default "" (h !! key).

(** [ioutil.ReadAll(res.Body)] *)
Definition ioutil_ReadAll (res : Response) : string * option error :=
  (Body res, BodyErr res).

(** [client.Do] *)
Definition Client : Type := Request → result Response.

Record App : Type := mkApp {
  EncryptedConfig : string;
  SecretsDir : string;
  configUrl : string
}.

Definition NotModifiedError : error := ErrorsNew "Config unchanged on server".

(** ** The current revision *)

Section Current.

(** What the code takes from its libraries and from the rest of the
    repository. *)

(** [filepath.Join] of a directory and a name *)
Variable Join : string → string → string.
(** the error of [http.NewRequest] for a URL it cannot parse *)
Variable url_error : string → option error.
(** [t.UTC().Format(time.RFC1123)] and [time.Parse(time.RFC1123, s)] *)
Variable time_Format_RFC1123 : Z → string.
Variable time_Parse_RFC1123 : string → result Z.
(** [CryptoHandler] *)
Variable CryptoHandler : Type.
(** Modelled from the spec: [UnmarshallBuffer] and [UnmarshallFile] are in
    a file that is not at hand.  They are the codec's
    "[decode(raw bytes, capability-or-nil, decryptValues) -> ConfigSnapshot]",
    on a buffer and on the content of a file; they read and change
    nothing. *)
Variable UnmarshallBuffer :
  option CryptoHandler → string → bool → ConfigStruct * option error.
Variable UnmarshallFile :
  option CryptoHandler → string → bool → World → ConfigStruct * option error.

Definition http_NewRequest (method url : string) : result Request :=
  match url_error url with
  | Some e => Err e
  | None => Ok (mkRequest method url false ∅)
  end.

Definition tmp_of (secretFile : string) : string := secretFile +:+ ".tmp".

(** The body of [safeWrite], up to its [return]. *)
Definition safeWrite_body (tmp secretFile newContent : string) : M (option error) :=
  err ← ioutil_WriteFile tmp newContent (octal 6 4 0);
  match err with
  | Some e =>
      ret (Some (Errorw ("Unable to create " +:+ tmp +:+ ": " +:+ Error e) e))
  | None =>
      err ← os_Rename tmp secretFile;
      match err with
      | Some e =>
          ret (Some (Errorw ("Unable to update secret: " +:+ secretFile
                              +:+ " - " +:+ Error e) e))
      | None => ret None
      end
  end.

(** [safeWrite]: the deferred [os.Remove(tmp)] runs after the body,
    whatever it returns, and its own result is dropped. *)
Definition safeWrite (secretFile newContent : string) : M (option error) :=
  let tmp := tmp_of secretFile in
  r ← safeWrite_body tmp secretFile newContent;
  _ ← os_Remove tmp;
  ret r.

Definition updateSecret (secretFile newContent : string) : M (bool * option error) :=
  r ← ioutil_ReadFile secretFile;
  match r with
  | Ok curContent =>
      if bool_decide (newContent = curContent) then ret (false, None)
      else err ← safeWrite secretFile newContent; ret (true, err)
  | Err _ => err ← safeWrite secretFile newContent; ret (true, err)
  end.

(** [runOnChanged] logs the name and runs the command with
    [CONFIG_FILE=fullpath]; both are the one event [EvExec].  A command that
    fails is only logged. *)
Definition runOnChanged (fname fullpath : string) (onChanged : list string) : M unit :=
  if bool_decide (0 < length onChanged)%nat
  then emit (EvExec fname onChanged fullpath)
  else ret tt.

(** The first loop of [extract], over [config.next]. *)
Fixpoint extract_update (dir : string) (next : list (string * ConfigFile))
    (all_fname : gset string) : M (gset string * option error) :=
  match next with
  | [] => ret (all_fname, None)
  | (fname, cfgFile) :: rest =>
      log_Printf "Extracting %s" [fname];;
      let all_fname := {[fname]} ∪ all_fname in
      let fullpath := Join dir fname in
      r ← updateSecret fullpath (Value cfgFile);
      match r : bool * option error with
      | (_, Some err) => ret (all_fname, Some err)
      | (changed, None) =>
          (if changed return M unit
           then runOnChanged fname fullpath (OnChanged cfgFile)
           else ret tt);;
          extract_update dir rest all_fname
      end
  end.

(** The second loop of [extract], over [config.prev]. *)
Fixpoint extract_remove (dir : string) (prev : list (string * ConfigFile))
    (all_fname : gset string) : M (option error) :=
  match prev with
  | [] => ret None
  | (fname, cfgFile) :: rest =>
      if bool_decide (fname ∈ all_fname) then extract_remove dir rest all_fname
      else
        log_Printf "Removing %s" [fname];;
        let fullpath := Join dir fname in
        r ← os_Remove fullpath;
        match r with
        | Some err =>
            if negb (os_IsNotExist err) then ret (Some err)
            else runOnChanged fname fullpath (OnChanged cfgFile);;
                 extract_remove dir rest all_fname
        | None =>
            runOnChanged fname fullpath (OnChanged cfgFile);;
            extract_remove dir rest all_fname
        end
  end.

Definition extract (a : App) (crypto : CryptoHandler) (config : configSnapshot)
    : M (option error) :=
  st ← os_Stat (SecretsDir a);
  match st with
  | Err err => ret (Some err)
  | Ok _ =>
      r ← extract_update (SecretsDir a) (entries (next config)) ∅;
      match r : gset string * option error with
      | (_, Some err) => ret (Some err)
      | (all_fname, None) =>
          match prev config with
          | None => ret None
          | Some prev_entries => extract_remove (SecretsDir a) prev_entries all_fname
          end
      end
  end.

(** [Extract], with the handler that [createClient] gives. *)
Definition Extract (a : App) (crypto : CryptoHandler) : M (option error) :=
  w ← get_world;
  match UnmarshallFile (Some crypto) (EncryptedConfig a) true w with
  | (_, Some err) => ret (Some err)
  | (config, None) => extract a crypto (mkSnapshot None config)
  end.

(** The error of loading the previous bundle that [checkin] gives up on:
    any but a path error for a file that is not there. *)
Definition load_error (perr : option error) : option error :=
  match perr with
  | None => None
  | Some err =>
      match errors_As_PathError err with
      | Some pe => if os_IsNotExist pe then None else Some err
      | None => Some err
      end
  end.

(** The 200 branch of [checkin] after the body has been read. *)
Definition checkin_200 (a : App) (crypto : CryptoHandler) (res : Response)
    (body : string) : M (option error) :=
  match UnmarshallBuffer (Some crypto) body true with
  | (_, Some err) => ret (Some err)
  | (next, None) =>
      w ← get_world;
      let '(prev, perr) := UnmarshallFile None (EncryptedConfig a) false w in
      match load_error perr with
      | Some err =>
          log_Printf "Unable to load previous config version: %s" [Error err];;
          ret (Some err)
      | None =>
          err ← extract a crypto (mkSnapshot prev next);
          match err with
          | Some e => ret (Some e)
          | None =>
              err ← safeWrite (EncryptedConfig a) body;
              match err with
              | Some e => ret (Some e)
              | None =>
                  modtime ←
                    match time_Parse_RFC1123 (Header_Get (Header res) "Date") with
                    | Ok t => ret t
                    | Err e =>
                        log_Printf
                          "Unable to get modtime of config file, defaulting to 'now': %s"
                          [Error e];;
                        time_Now
                    end;
                  err ← os_Chtimes (EncryptedConfig a) modtime;
                  match err with
                  | Some e =>
                      ret (Some (Errorw ("Unable to set modified time "
                                          +:+ EncryptedConfig a +:+ " - " +:+ Error e) e))
                  | None => ret None
                  end
              end
          end
      end
  end.

(** The request of [checkin]: a GET that is closed after use, with
    [If-Modified-Since] when the persisted bundle is there. *)
Definition checkin_request (a : App) : M (result Request) :=
  match http_NewRequest "GET" (configUrl a) with
  | Err err => ret (Err err)
  | Ok req =>
      let req := mkRequest (Method req) (URL req) true (ReqHeader req) in
      st ← os_Stat (EncryptedConfig a);
      match st with
      | Ok fi =>
          ret (Ok (mkRequest (Method req) (URL req) (Close req)
                     (<["If-Modified-Since" := time_Format_RFC1123 (ModTime fi)]>
                        (ReqHeader req))))
      | Err _ => ret (Ok req)
      end
  end.

(** What [checkin] does with the response. *)
Definition checkin_response (a : App) (crypto : CryptoHandler) (res : Response)
    : M (option error) :=
  if StatusCode res =? 200 then
    match ioutil_ReadAll res with
    | (_, Some err) =>
        ret (Some (Errorw ("Unable to read new secrets: " +:+ Error err) err))
    | (body, None) => checkin_200 a crypto res body
    end
  else if StatusCode res =? 304 then
    log_Printf "Config on server has not changed" [];;
    ret (Some NotModifiedError)
  else if StatusCode res =? 204 then
    log_Printf "Device has no config defined on server" [];;
    ret (Some NotModifiedError)
  else
    let '(msg, _) := ioutil_ReadAll res in
    ret (Some (Errorf ("Unable to get " +:+ configUrl a +:+ " - HTTP_"
                        +:+ pretty (StatusCode res) +:+ ": " +:+ msg))).

Definition checkin (a : App) (client : Client) (crypto : CryptoHandler)
    : M (option error) :=
  r ← checkin_request a;
  match r with
  | Err err => ret (Some err)
  | Ok req =>
      match client req with
      | Err err =>
          ret (Some (Errorf ("Unable to get: " +:+ configUrl a +:+ " - " +:+ Error err)))
      | Ok res => checkin_response a crypto res
      end
  end.

End Current.

(** ** The earlier revision, [internal/app.go] *)

Module Legacy.

(** [os.OpenFile(path, os.O_RDWR|os.O_CREATE, perm)]: a missing file is
    created empty, an existing one is opened as it is (no [O_TRUNC]). *)
Definition os_OpenFile (path : string) (perm : Z) : M (option error) :=
  f ← next_fault;
  m ← get_nodes;
  match f, m !! path with
  | Some ft, _ => ret (Some (PathError "open" path (fault_errno ft)))
  | None, Some (Dir _) => ret (Some (PathError "open" path EISDIR))
  | None, Some (File _ _ _) => ret None
  | None, None =>
      w ← get_world;
      put_nodes (<[path := File "" (Z.land perm (Z.lnot (umask w))) (clock w)]> m);;
      emit (EvOpenFile path perm);;
      ret None
  end.

(** Bytes written at the start of a file replace what was there and leave
    the rest. *)
Definition overwrite (old data : string) : string :=
  data +:+ String.substring (String.length data)
             (String.length old - String.length data) old.

Definition copied (n : node) (data : string) (now : Z) : node :=
  match n with
  | File old mode _ => File (overwrite old data) mode now
  | Dir t => Dir t
  end.

(** [io.Copy(to, input)] into the file opened at [path], from a reader
    that gives [data] and then ends with [read_err]. *)
Definition io_Copy (path data : string) (read_err : option error) : M (option error) :=
  f ← next_fault;
  m ← get_nodes;
  match f, m !! path with
  | Some (Fail c), _ => ret (Some (PathError "write" path (cause_errno c)))
  | _, None => ret (Some (PathError "write" path ENOENT))
  | Some (Short k c), Some n =>
      w ← get_world;
      put_nodes (<[path := copied n (take_bytes k data) (clock w)]> m);;
      emit (EvCopy path (take_bytes k data));;
      ret (Some (PathError "write" path (cause_errno c)))
  | None, Some n =>
      w ← get_world;
      put_nodes (<[path := copied n data (clock w)]> m);;
      emit (EvCopy path data);;
      ret read_err
  end.

Section Legacy.

Variable Join : string → string → string.
Variable url_error : string → option error.
Variable time_Format_RFC1123 : Z → string.
(** [*ecies.PrivateKey] *)
Variable PrivateKey : Type.
(** Modelled from the spec: [Unmarshall] is in a file that is not at hand;
    it is the codec's decoding of the file at a path with every value
    decrypted, and changes nothing. *)
Variable Unmarshall : PrivateKey → string → World → ConfigStruct * option error.

Record App : Type := mkApp {
  PrivKey : PrivateKey;
  EncryptedConfig : string;
  SecretsDir : string;
  client : Client;
  configUrl : string
}.

(** The loop of [Extract]. *)
Fixpoint Extract_loop (dir : string) (config : list (string * ConfigFile))
    : M (option error) :=
  match config with
  | [] => ret None
  | (fname, cfgFile) :: rest =>
      log_Printf "Extracting %s" [fname];;
      err ← ioutil_WriteFile (Join dir fname) (Value cfgFile) (octal 6 4 4);
      match err with
      | Some e =>
          ret (Some (Errorf ("Unable to extract " +:+ fname +:+ ": " +:+ Error e)))
      | None => Extract_loop dir rest
      end
  end.

Definition Extract (a : App) : M (option error) :=
  st ← os_Stat (SecretsDir a);
  match st with
  | Err err => ret (Some err)
  | Ok _ =>
      w ← get_world;
      match Unmarshall (PrivKey a) (EncryptedConfig a) w with
      | (_, Some err) => ret (Some err)
      | (config, None) => Extract_loop (SecretsDir a) (entries config)
      end
  end.

Definition safeWrite (input : Response) (path : string) : M (option error) :=
  let safepath := path +:+ ".tmp" in
  err ← os_OpenFile safepath (octal 6 4 4);
  match err with
  | Some e =>
      ret (Some (Errorw ("Unable to create new secrets: " +:+ path +:+ " - "
                          +:+ Error e) e))
  | None =>
      err ← io_Copy safepath (Body input) (BodyErr input);
      match err with
      | Some e =>
          ret (Some (Errorw ("Unable to copy secrets to: " +:+ path +:+ " - "
                              +:+ Error e) e))
      | None =>
          err ← os_Rename safepath path;
          match err with
          | Some e =>
              ret (Some (Errorw ("Unable to link secrets to: " +:+ path +:+ " - "
                                  +:+ Error e) e))
          | None => ret None
          end
      end
  end.

(** [CheckIn].  The error of [http.NewRequest] is overwritten unread; with
    a URL that does not parse the request is nil and its first use
    panics. *)
Definition CheckIn (a : App) : M (outcome (option error)) :=
  st ← os_Stat (EncryptedConfig a);
  match url_error (configUrl a) with
  | Some _ => ret (Panics "invalid memory address or nil pointer dereference")
  | None =>
      let req := mkRequest "GET" (configUrl a) false ∅ in
      let req :=
        match st with
        | Ok fi =>
            mkRequest (Method req) (URL req) (Close req)
              (<["If-Modified-Since" := time_Format_RFC1123 (ModTime fi)]> (ReqHeader req))
        | Err _ => req
        end in
      match client a req with
      | Err err =>
          ret (Returns (Some (Errorf ("Unable to get: " +:+ configUrl a +:+ " - "
                                       +:+ Error err))))
      | Ok res =>
          if StatusCode res =? 200 then
            err ← safeWrite res (EncryptedConfig a);
            match err with
            | Some e => ret (Returns (Some e))
            | None => r ← Extract a; ret (Returns r)
            end
          else if StatusCode res =? 304 then
            log_Printf "Config on server has not changed" [];;
            ret (Returns (Some NotModifiedError))
          else
            let '(msg, _) := ioutil_ReadAll res in
            ret (Returns (Some (Errorf ("Unable to get " +:+ configUrl a +:+ " - HTTP_"
                                         +:+ pretty (StatusCode res) +:+ ": " +:+ msg))))
      end
  end.

End Legacy.

End Legacy.


(** ** Notions the properties are stated with *)

(** [w'] is [w] after some calls of the code that left [ev] in the trace:
    umask and clock are as they were, and the environment's decisions are
    used up from the front. *)
Definition run_of (w w' : World) (ev : list event) : Prop :=
  trace w' = trace w ++ ev ∧ umask w' = umask w ∧ clock w' = clock w
  ∧ ∃ k, faults w' = drop k (faults w).

(** The environment lets every system call through. *)
Definition quiet (w : World) : Prop := Forall (eq None) (faults w).


(** The content of the regular file at [path], if there is one. *)
Definition on_disk (w : World) (path : string) : option string :=
  match nodes w !! path with
  | Some (File c _ _) => Some c
  | _ => None
  end.

(** The mode of the regular file at [path], if there is one. *)
Definition mode_of (w : World) (path : string) : option Z :=
  match nodes w !! path with
  | Some (File _ mode _) => Some mode
  | _ => None
  end.

(** The modification time of what is at [path]. *)
Definition mtime_of (w : World) (path : string) : option Z :=
  ModTime ∘ node_info <$> nodes w !! path.

(** The event changes what is at [path]. *)
Definition touches (path : string) (e : event) : bool :=
  match e with
  | EvWriteFile p _ _ | EvOpenFile p _ | EvCopy p _ | EvRemove p | EvChtimes p _ =>
      bool_decide (p = path)
  | EvRename old new => bool_decide (old = path) || bool_decide (new = path)
  | EvLog _ _ | EvExec _ _ _ => false
  end.

(** The event changes the file system. *)
Definition mutates (e : event) : bool :=
  match e with
  | EvLog _ _ | EvExec _ _ _ => false
  | _ => true
  end.

(** The event is a run of a change hook (for [fname]). *)
Definition is_exec (e : event) : bool :=
  match e with EvExec _ _ _ => true | _ => false end.
Definition is_exec_for (fname : string) (e : event) : bool :=
  match e with EvExec f _ _ => bool_decide (f = fname) | _ => false end.

(** The event is the file write of [ioutil.WriteFile]. *)
Definition is_write (e : event) : bool :=
  match e with EvWriteFile _ _ _ => true | _ => false end.

(** The event writes or puts a file in place. *)
Definition is_update (e : event) : bool :=
  match e with
  | EvWriteFile _ _ _ | EvRename _ _ => true
  | EvLog format _ => bool_decide (format = "Extracting %s")
  | _ => false
  end.

(** The event belongs to the removal of a file that [prev] alone has. *)
Definition is_removal (e : event) : bool :=
  match e with
  | EvRemove _ => true
  | EvLog format _ => bool_decide (format = "Removing %s")
  | _ => false
  end.


(** The events of a [safeWrite] that fails: what was written to the
    temporary file, and its removal. *)
Definition cleanup_event (tmp : string) (e : event) : Prop :=
  match e with
  | EvWriteFile p _ perm => p = tmp ∧ perm = octal 6 4 0
  | EvRemove p => p = tmp
  | _ => False
  end.

(** What [runOnChanged] leaves in the trace for an entry of name [fname]
    at [fullpath]: one run of its command, when it has one. *)
Definition hook_run (fname fullpath : string) (cfgFile : ConfigFile) : list event :=
  match OnChanged cfgFile with
  | [] => []
  | argv => [EvExec fname argv fullpath]
  end.

Section Footprint.

Variable Join : string → string → string.

(** The paths of the secret files of the entries [l] in [dir], and of the
    temporary files written on the way. *)
Definition secret_paths (dir : string) (l : list (string * ConfigFile)) : list string :=
  map (fun entry => Join dir (fst entry)) l.
Definition tmp_paths (dir : string) (l : list (string * ConfigFile)) : list string :=
  map tmp_of (secret_paths dir l).

(** The entries of [next] have secret files of their own: no two share a
    path, and no temporary file of one is the secret file or the temporary
    file of another. *)
Definition independent (dir : string) (next : ConfigStruct) : Prop :=
  NoDup (secret_paths dir (entries next) ++ tmp_paths dir (entries next)).

(** No file that [prev] alone names is at the path of an entry of
    [next]. *)
Definition apart (dir : string) (prev next : ConfigStruct) : Prop :=
  ∀ g, g ∈ names prev → g ∉ names next →
       Join dir g ∉ secret_paths dir (entries next).

(** The path [q] is none that [extract] works on for the snapshot: not
    the file or the temporary file of an entry of [next], nor the file of
    a name of [prev]. *)
Definition outside (dir : string) (cfg : configSnapshot) (q : string) : Prop :=
  (q ∉ secret_paths dir (entries (next cfg)))
  ∧ (q ∉ tmp_paths dir (entries (next cfg)))
  ∧ ∀ g, g ∈ names (prev cfg) → Join dir g ≠ q.

(** What the first loop of [extract] can leave in the trace for the
    entries [l]. *)
Definition update_event (dir : string) (l : list (string * ConfigFile))
    (e : event) : Prop :=
  match e with
  | EvLog format args => format = "Extracting %s" ∧ ∃ f, args = [f] ∧ f ∈ l.*1
  | EvWriteFile p _ perm =>
      perm = octal 6 4 0 ∧ ∃ f, f ∈ l.*1 ∧ p = tmp_of (Join dir f)
  | EvRename old new =>
      ∃ f, f ∈ l.*1 ∧ old = tmp_of (Join dir f) ∧ new = Join dir f
  | EvRemove p => ∃ f, f ∈ l.*1 ∧ p = tmp_of (Join dir f)
  | EvExec f argv config_file =>
      ∃ c, (f, c) ∈ l ∧ argv = OnChanged c ∧ config_file = Join dir f
  | _ => False
  end.

(** What the second loop of [extract] can leave in the trace for the
    entries [l], the names [seen] being those of [next]. *)
Definition remove_event (dir : string) (l : list (string * ConfigFile))
    (seen : gset string) (e : event) : Prop :=
  match e with
  | EvLog format args =>
      format = "Removing %s" ∧ ∃ f, args = [f] ∧ f ∈ l.*1 ∧ f ∉ seen
  | EvRemove p => ∃ f, f ∈ l.*1 ∧ (f ∉ seen) ∧ p = Join dir f
  | EvExec f argv config_file =>
      ∃ c, (f, c) ∈ l ∧ (f ∉ seen) ∧ argv = OnChanged c ∧ config_file = Join dir f
  | _ => False
  end.


End Footprint.

(** ** Concrete instances, for the examples *)

Module Demo.

(** [filepath.Join] on a directory in clean form and a plain file name. *)
Definition Join (dir fname : string) : string := dir +:+ "/" +:+ fname.

(** Every URL parses. *)
Definition url_error (url : string) : option error := None.

(** Times are seconds since the epoch; only one date is known to the
    stand-in for the parser. *)
Definition time_Format_RFC1123 (t : Z) : string :=
  if t =? 100 then "Thu, 01 Jan 1970 00:01:40 UTC" else pretty t.
Definition time_Parse_RFC1123 (s : string) : result Z :=
  if bool_decide (s = "Thu, 01 Jan 1970 00:01:40 UTC") then Ok 100
  else Err (Errorf ("parsing time " +:+ s)).

Definition secretA : ConfigFile := mkConfigFile "secretA" [].
Definition secretB : ConfigFile := mkConfigFile "secretB" ["/bin/true"].
Definition secretC : ConfigFile := mkConfigFile "secretC" ["/bin/reload"; "c"].

(** A codec that knows two bundles. *)
Definition decode (raw : string) : ConfigStruct * option error :=
  if bool_decide (raw = "bundle-1")
  then (Some [("a.conf", mkConfigFile "old" []); ("c.conf", secretC)], None)
  else if bool_decide (raw = "bundle-2")
  then (Some [("a.conf", secretA); ("b.conf", secretB)], None)
  else (None, Some (Errorf "Unable to unmarshall")).

Definition UnmarshallBuffer (crypto : option unit) (raw : string) (decrypt : bool)
    : ConfigStruct * option error :=
  decode raw.

Definition UnmarshallFile (crypto : option unit) (path : string) (decrypt : bool)
    (w : World) : ConfigStruct * option error :=
  match on_disk w path with
  | Some raw => decode raw
  | None =>
      (None, Some (Errorw ("Unable to read " +:+ path)
                     (PathError "open" path ENOENT)))
  end.

Definition Unmarshall (key : unit) (path : string) (w : World)
    : ConfigStruct * option error :=
  UnmarshallFile (Some key) path true w.

Definition app : App := mkApp "/var/sota/config.encrypted" "/run/secrets" "https://ota/config".

(** A device that has applied bundle-1. *)
Definition disk : gmap string node :=
  <["/run/secrets/c.conf" := File "secretC" (octal 6 4 0) 50]>
    (<["/run/secrets/a.conf" := File "old" (octal 6 4 0) 50]>
       (<["/var/sota/config.encrypted" := File "bundle-1" (octal 6 4 0) 50]>
          (<["/run/secrets" := Dir 10]> ∅))).

Definition world : World := mkWorld disk (octal 0 2 2) 500 [] [].

Definition prev1 : ConfigStruct := (decode "bundle-1").1.
Definition next2 : ConfigStruct := (decode "bundle-2").1.

(** The device after bundle-2 has been applied over bundle-1. *)
Definition applied : World :=
  (extract Join unit app tt (mkSnapshot prev1 next2) world).2.

(** The server's answer with bundle-2. *)
Definition response_200 : Response :=
  mkResponse 200 (<["Date" := "Thu, 01 Jan 1970 00:01:40 UTC"]> ∅) "bundle-2" None.
Definition response (status : Z) (body : string) : Response :=
  mkResponse status ∅ body None.
Definition serves (res : Response) : Client := fun _ => Ok res.

(** A bundle with the names "a.tmp" and "a": the temporary file of the
    second is the secret file of the first. *)
Definition sibling_tmp : ConfigFile := mkConfigFile "X" ["/bin/true"].
Definition sibling : ConfigFile := mkConfigFile "Y" [].
Definition siblings : ConfigStruct := Some [("a.tmp", sibling_tmp); ("a", sibling)].

Definition siblings_disk : gmap string node :=
  <["/run/secrets/a.tmp" := File "X" (octal 6 4 0) 50]>
    (<["/run/secrets/a" := File "old" (octal 6 4 0) 50]>
       (<["/run/secrets" := Dir 10]> ∅)).

Definition empty_disk : gmap string node := <["/run/secrets" := Dir 10]> ∅.




(** The device after the bundle of siblings has been applied to an empty
    secrets directory, and the same files before the next application. *)
Definition siblings_applied : World :=
  (extract Join unit app tt (mkSnapshot None siblings)
     (mkWorld empty_disk (octal 0 2 2) 500 [] [])).2.
Definition siblings_again : World :=
  mkWorld (nodes siblings_applied) (octal 0 2 2) 600 [] [].

(** A run in which the environment refuses the second system call. *)
Definition refuse_second : list (option fault) := [None; Some (Fail IOFailure)].

(** The earlier revision's application, served [res]. *)
Definition legacy_app (res : Response) : Legacy.App unit :=
  Legacy.mkApp unit tt "/var/sota/config.encrypted" "/run/secrets" (serves res)
    "https://ota/config".

End Demo.

(** ** The client configuration: [tomlGet], [tomlAssertVal], [createClient] *)

(** A value of [sota.toml]: a string, or something else (a number, a
    table, ...). *)
Inductive toml_value : Type :=
| TomlString (s : string)
| TomlOther.

(** How a call that can end the program comes out: it returns, the
    program exits ([os.Exit], [log.Fatal]), or it panics. *)
Inductive process (A : Type) : Type :=
| Returned (a : A)
| Exited (status : Z)
| Panicked (msg : string).
Arguments Returned {A} a.
Arguments Exited {A} status.
Arguments Panicked {A} msg.

(** Code that prints lines and can end the program. *)
Definition P (A : Type) : Type := list string * process A.

#[global] Instance P_ret : MRet P := fun A a => ([], Returned a).
#[global] Instance P_bind : MBind P := fun A B k m =>
  match m with
  | (out, Returned a) => let '(out', r) := k a in (out ++ out', r)
  | (out, Exited status) => (out, Exited status)
  | (out, Panicked msg) => (out, Panicked msg)
  end.

(** [fmt.Println] of one line *)
Definition fmt_Println (line : string) : P unit := ([line], Returned tt).
(** [os.Exit] *)
Definition os_Exit {A} (status : Z) : P A := ([], Exited status).

(** [tree.GetDefault(key, def)], the tree being looked up by dotted key *)
Definition GetDefault (tree : gmap string toml_value) (key def : string) : toml_value :=
  default (TomlString def) (tree !! key).

(** The type assertion [v.(string)] *)
Definition assert_string (v : toml_value) : P string :=
  match v with
  | TomlString s => ([], Returned s)
  | TomlOther => ([], Panicked "interface conversion: interface {} is not string")
  end.

Definition tomlGet (tree : gmap string toml_value) (key : string) : P string :=
  val ← assert_string (GetDefault tree key "");
  if (String.length val =? 0)%nat
  then fmt_Println ("ERROR: Missing " +:+ key +:+ " in sota.toml");; os_Exit 1
  else mret val.

Definition tomlAssertVal (tree : gmap string toml_value) (key : string)
    (allowed : list string) : P string :=
  val ← tomlGet tree key;
  if bool_decide (val ∈ allowed) then mret val
  else
    fmt_Println ("ERROR: Invalid value " +:+ val +:+ " in sota.toml for " +:+ key);;
    mret val.

Section CreateClient.

(** The pair of an HTTP client and a crypto handler. *)
Variable ClientPair : Type.
(** [createClientLocal] and [createClientPkcs11] *)
Variable createClientLocal : gmap string toml_value → P ClientPair.
Variable createClientPkcs11 : gmap string toml_value → P ClientPair.

Definition createClient (sota : gmap string toml_value) : P ClientPair :=
  _ ← tomlAssertVal sota "tls.ca_source" ["file"];
  source ← tomlAssertVal sota "tls.pkey_source" ["file"; "pkcs11"];
  _ ← tomlAssertVal sota "tls.cert_source" [source];
  if bool_decide (source = "file") then createClientLocal sota
  else createClientPkcs11 sota.

End CreateClient.

(** ** The init functions *)

Section InitFunctions.

Variable CryptoHandler : Type.

(** A function of [initFunctions]. *)
Definition initFunction : Type := App → Client → CryptoHandler → M (option error).

(** [callInitFunctions], on the registry [initFunctions] in the order in
    which the loop visits it; it gives the registry that is left (a
    function that returns no error is deleted).  The functions are taken
    not to change the registry themselves. *)
Fixpoint callInitFunctions (a : App) (client : Client) (crypto : CryptoHandler)
    (initFunctions : list (string * initFunction))
    : M (list (string * initFunction)) :=
  match initFunctions with
  | [] => ret []
  | (name, cb) :: rest =>
      log_Printf "Running %s initialization" [name];;
      err ← cb a client crypto;
      match err with
      | Some e =>
          log_Printf "ERROR: %v" [Error e];;
          kept ← callInitFunctions a client crypto rest;
          ret ((name, cb) :: kept)
      | None => callInitFunctions a client crypto rest
      end
  end.

(** The call that the loop of [callInitFunctions] makes of the function
    registered under [name], once it has gone through the entries [pre]
    that come before it: what the function returns, and the world it
    leaves. *)
Definition init_call (a : App) (client : Client) (crypto : CryptoHandler)
    (pre : list (string * initFunction)) (name : string) (cb : initFunction)
    (w : World) : option error * World :=
  cb a client crypto
    (log_Printf "Running %s initialization" [name]
       (callInitFunctions a client crypto pre w).2).2.

End InitFunctions.

(** ** More notions for the properties *)

(** The request [checkin] sends when the persisted bundle has the
    modification time [mtime], or is not there. *)
Definition conditional_request (format : Z → string) (url : string)
    (mtime : option Z) : Request :=
  mkRequest "GET" url true
    match mtime with
    | Some t => <["If-Modified-Since" := format t]> ∅
    | None => ∅
    end.

(** What the earlier [Extract] leaves in the trace for the entries [l]:
    for each, its log line and the write of its file. *)
Definition legacy_writes (Join : string → string → string) (dir : string)
    (l : list (string * ConfigFile)) : list event :=
  flat_map (fun entry =>
              [EvLog "Extracting %s" [entry.1];
               EvWriteFile (Join dir entry.1) (Value entry.2) (octal 6 4 4)]) l.

(** Concrete instances for the examples. *)
Module Demo2.

Definition sota : gmap string toml_value :=
  <["tls.ca_source" := TomlString "file"]>
    (<["tls.pkey_source" := TomlString "hsm"]>
       (<["tls.cert_source" := TomlString "file"]> ∅)).

Definition local_client (sota : gmap string toml_value) : P string :=
  ([], Returned "local").
Definition pkcs11_client (sota : gmap string toml_value) : P string :=
  ([], Returned "pkcs11").

(** Init functions: one that enrols the device by writing a file, one
    that always fails. *)
Definition enrol : initFunction unit := fun a client crypto =>
  err ← ioutil_WriteFile "/var/sota/enrolled" "yes" (octal 6 4 0);
  ret err.
Definition broken : initFunction unit := fun a client crypto =>
  ret (Some (Errorf "no network")).

Definition registry : list (string * initFunction unit) :=
  [("enrol", enrol); ("broken", broken)].

(** A device on which the first system call is refused. *)
Definition read_only_world : World :=
  mkWorld Demo.disk (octal 0 2 2) 500 [Some (Fail Permission)] [].

(** A device with a stale, longer temporary bundle file. *)
Definition stale_disk : gmap string node :=
  <["/var/sota/config.encrypted.tmp" := File "0123456789abcdef" (octal 6 6 6) 40]>
    Demo.disk.
Definition stale_world : World := mkWorld stale_disk (octal 0 2 2) 500 [] [].

(** A URL parser that refuses one URL. *)
Definition strict_url_error (url : string) : option error :=
  if bool_decide (url = "::") then Some (Errorf "parse ::: missing protocol scheme")
  else None.
Definition bad_app : App := mkApp "/var/sota/config.encrypted" "/run/secrets" "::".

(** A client that cannot reach the server. *)
Definition unreachable : Client := fun _ => Err (Errorf "dial tcp: i/o timeout").

(** A device on which the rename is refused (the second and third system
    calls go through, the fourth does not). *)
Definition refuse_rename : list (option fault) :=
  [None; None; None; Some (Fail Permission)].

End Demo2.
(** * Properties *)

(** ** [idToBytes] *)

Lemma loop_spec chars : ∀ idx start,
  0 ≤ idx →
  idToBytes_loop chars idx start =
    (map digit chars,
     if start =? -1
     then match first_nonzero (map digit chars) with
          | Some k => idx + Z.of_nat k
          | None => -1
          end
     else start).
Proof.
  induction chars as [|char rest IH]; intros idx start Hidx; simpl.
  - destruct (Z.eqb_spec start (-1)); congruence.
  - rewrite IH by lia. fold (digit char).
    destruct (digit char =? 0) eqn:Hd; simpl.
    + destruct (start =? -1) eqn:Hs; [|done].
      destruct (first_nonzero (map digit rest)); simpl; f_equal; lia.
    + destruct (start =? -1) eqn:Hs; simpl; [|by rewrite Hs].
      destruct (Z.eqb_spec idx (-1)) as [->|]; f_equal; lia.
Qed.

Lemma first_nonzero_bound ds k :
  first_nonzero ds = Some k → (k < length ds)%nat.
Proof.
  revert k. induction ds as [|d rest IH]; intros k; simpl; [done|].
  destruct (d =? 0); [|intros [= <-]; lia].
  destruct (first_nonzero rest) as [j|]; simpl; [|done].
  intros [= <-]. specialize (IH j eq_refl). lia.
Qed.

Lemma drop_first_nonzero ds k :
  first_nonzero ds = Some k → drop k ds = strip_leading_zeros ds.
Proof.
  revert k. induction ds as [|d rest IH]; intros k; simpl; [done|].
  destruct (d =? 0); [|by intros [= <-]].
  destruct (first_nonzero rest) as [j|]; simpl; [|done].
  intros [= <-]. simpl. by apply IH.
Qed.

(** What [idToBytes] does on every string: with a digit that is not zero
    the leading zeros are stripped, and without one it panics. *)
Lemma idToBytes_spec id :
  idToBytes id =
    match first_nonzero (digits id) with
    | Some _ => Returns (strip_leading_zeros (digits id))
    | None => Panics "slice bounds out of range"
    end.
Proof.
  unfold idToBytes. rewrite loop_spec by lia. simpl. fold (digits id).
  destruct (first_nonzero (digits id)) as [k|] eqn:Hk; [|done].
  unfold slice_from.
  pose proof (first_nonzero_bound _ _ Hk) as Hlt.
  replace (0 + Z.of_nat k) with (Z.of_nat k) by lia.
  destruct (Z.of_nat k <? 0) eqn:H1; [lia|].
  destruct (Z.of_nat (length (digits id)) <? Z.of_nat k) eqn:H2; [lia|].
  simpl. rewrite Nat2Z.id. f_equal. by apply drop_first_nonzero.
Qed.

Lemma idToBytes_01 : idToBytes "01" = Returns [1].
Proof. reflexivity. Qed.

Lemma idToBytes_10 : idToBytes "10" = Returns [1; 0].
Proof. reflexivity. Qed.

(** X29. Every identifier made of zeros only, and the empty one, panics. *)
Lemma idToBytes_zeros_panic id :
  Forall (eq 0) (digits id) → idToBytes id = Panics "slice bounds out of range".
Proof.
  intros Hz. rewrite idToBytes_spec.
  assert (first_nonzero (digits id) = None) as ->; [|done].
  induction Hz as [|d rest <- _ IH]; simpl; [done|]. by rewrite IH.
Qed.

(** C3. The identifier "00", which the specification has decode to the
    empty sequence, makes [idToBytes] panic: [start] is still [-1] when
    [bytes[start:]] is taken.  ("01" and "10" decode as specified, see
    [idToBytes_01] and [idToBytes_10].) *)
Theorem idToBytes_00_panics :
  idToBytes "00" = Panics "slice bounds out of range"
  ∧ idToBytes "01" = Returns [1]
  ∧ idToBytes "10" = Returns [1; 0].
Proof. by vm_compute. Qed.


(** ** System calls *)

Ltac prim :=
  unfold os_Stat, ioutil_ReadFile, ioutil_WriteFile, os_Rename, os_Remove,
    os_Chtimes, Legacy.os_OpenFile, Legacy.io_Copy, log_Printf, time_Now,
    store, ret, next_fault, get_nodes, get_world, put_nodes, emit in *;
  unfold mbind, M_bind, mret, M_ret in *; simpl in *.

Lemma run_of_refl w : run_of w w [].
Proof.
  unfold run_of. rewrite app_nil_r. repeat split. by exists 0%nat.
Qed.

Lemma run_of_trans w1 w2 w3 ev1 ev2 :
  run_of w1 w2 ev1 → run_of w2 w3 ev2 → run_of w1 w3 (ev1 ++ ev2).
Proof.
  intros (Ht1 & Hu1 & Hc1 & k1 & Hf1) (Ht2 & Hu2 & Hc2 & k2 & Hf2).
  unfold run_of. rewrite Ht2, Ht1, Hu2, Hc2, Hf2, Hf1, app_assoc.
  repeat split; try done. exists (k1 + k2)%nat. by rewrite drop_drop.
Qed.

Lemma run_of_quiet w w' ev : run_of w w' ev → quiet w → quiet w'.
Proof.
  intros (_ & _ & _ & k & Hf) Hq. unfold quiet in *. rewrite Hf.
  by apply Forall_drop.
Qed.

Lemma run_of_next_fault w f w' : next_fault w = (f, w') →
  run_of w w' [] ∧ nodes w' = nodes w ∧ (quiet w → f = None).
Proof.
  unfold next_fault, run_of, quiet. destruct w as [m u c fs t]; simpl.
  destruct fs as [|f0 fs]; intros [= <- <-]; simpl; rewrite app_nil_r.
  - repeat split; try done. by exists 0%nat.
  - repeat split; try done; [by exists 1%nat|].
    by intros [? _]%Forall_cons.
Qed.

Lemma run_of_emit w e : run_of w (set_trace (trace w ++ [e]) w) [e].
Proof. repeat split. by exists 0%nat. Qed.

Ltac run_chain :=
  lazymatch goal with
  | |- run_of _ _ _ =>
      first [ eassumption
            | apply run_of_emit
            | apply run_of_refl
            | eapply run_of_trans; [eassumption|run_chain] ]
  end.

Lemma tmp_of_neq p : tmp_of p ≠ p.
Proof.
  unfold tmp_of. induction p as [|a p IH]; simpl; [done|].
  intros [= H]. by apply IH.
Qed.

Ltac run_of_now :=
  unfold run_of; simpl; rewrite ?app_nil_r;
  repeat split; try done;
  first [by exists 0%nat | by exists 1%nat].

Ltac prim_cases w :=
  destruct w as [m u c fs tr]; prim;
  destruct fs as [|[[cs|k cs]|] fs]; simpl in *.

Lemma os_Stat_cases path w r w' : os_Stat path w = (r, w') →
  nodes w' = nodes w ∧ run_of w w' []
  ∧ (∀ fi, r = Ok fi → node_info <$> nodes w !! path = Some fi)
  ∧ (quiet w → r = match nodes w !! path with
                   | Some n => Ok (node_info n)
                   | None => Err (PathError "stat" path ENOENT)
                   end).
Proof.
  unfold quiet. prim_cases w; intros H;
    destruct (m !! path) as [n|] eqn:Hn; simplify_eq/=;
    (split; [done|]); (split; [run_of_now|]);
    (split; [by intros ? [= <-] | try done]);
    by intros [? _]%Forall_cons.
Qed.

Lemma ioutil_ReadFile_cases path w r w' : ioutil_ReadFile path w = (r, w') →
  nodes w' = nodes w ∧ run_of w w' []
  ∧ (∀ cur, r = Ok cur → on_disk w path = Some cur)
  ∧ (quiet w → ∀ cur, on_disk w path = Some cur → r = Ok cur).
Proof.
  unfold quiet, on_disk. prim_cases w; intros H;
    destruct (m !! path) as [[cur mode mt|mt]|] eqn:Hn; simplify_eq/=;
    (split; [done|]); (split; [run_of_now|]);
    (split; [by intros ? [= <-] | try done]);
    try (by intros [? _]%Forall_cons);
    by intros _ ? [= <-].
Qed.

Lemma ioutil_WriteFile_cases path data perm w r w' :
  ioutil_WriteFile path data perm w = (r, w') →
  (r = None
   ∧ nodes w' = <[path := written w path data perm]> (nodes w)
   ∧ run_of w w' [EvWriteFile path data perm])
  ∨ (∃ e, r = Some e
     ∧ ((nodes w' = nodes w ∧ run_of w w' [])
        ∨ ∃ n, nodes w' = <[path := written w path (take_bytes n data) perm]> (nodes w)
               ∧ run_of w w' [EvWriteFile path (take_bytes n data) perm])).
Proof.
  prim_cases w; intros H;
    destruct (m !! path) as [[cur mode mt|mt]|] eqn:Hn; simplify_eq/=;
    first
      [ left; split; [done|]; split; [done|]; run_of_now
      | right; eexists; split; [done|]; left; split; [done|]; run_of_now
      | right; eexists; split; [done|]; right; eexists; split; [done|]; run_of_now ].
Qed.

Lemma os_Rename_cases old new w r w' : os_Rename old new w = (r, w') →
  (r = None
   ∧ (∃ n, nodes w !! old = Some n ∧ nodes w' = <[new := n]> (delete old (nodes w)))
   ∧ run_of w w' [EvRename old new])
  ∨ (∃ e, r = Some e ∧ nodes w' = nodes w ∧ run_of w w' []).
Proof.
  prim_cases w; intros H;
    destruct (m !! old) as [[? ? ?|?]|] eqn:Ho;
    destruct (m !! new) as [[? ? ?|?]|] eqn:Hn; simplify_eq/=;
    first
      [ left; split; [done|]; split; [by eexists|]; run_of_now
      | right; eexists; split; [done|]; split; [done|]; run_of_now ].
Qed.

Lemma os_Remove_cases path w r w' : os_Remove path w = (r, w') →
  (r = None ∧ is_Some (nodes w !! path)
   ∧ nodes w' = delete path (nodes w) ∧ run_of w w' [EvRemove path])
  ∨ (∃ e, r = Some e ∧ nodes w' = nodes w ∧ run_of w w' []
     ∧ (os_IsNotExist e = true → nodes w !! path = None)).
Proof.
  prim_cases w; intros H;
    destruct (m !! path) as [n|] eqn:Hn; simplify_eq/=;
    first
      [ left; split; [done|]; split; [by eexists|]; split; [done|]; run_of_now
      | right; eexists; split; [done|]; split; [done|]; split; [run_of_now|];
        try done; by destruct cs ].
Qed.

Lemma os_Chtimes_cases path t w r w' : os_Chtimes path t w = (r, w') →
  (r = None
   ∧ (∃ n, nodes w !! path = Some n ∧ nodes w' = <[path := touched n t]> (nodes w))
   ∧ run_of w w' [EvChtimes path t])
  ∨ (∃ e, r = Some e ∧ nodes w' = nodes w ∧ run_of w w' []).
Proof.
  prim_cases w; intros H;
    destruct (m !! path) as [n|] eqn:Hn; simplify_eq/=;
    first
      [ left; split; [done|]; split; [by eexists|]; run_of_now
      | right; eexists; split; [done|]; split; [done|]; run_of_now ].
Qed.

(** ** [safeWrite] and [updateSecret] *)

Lemma safeWrite_body_cases p data w r w1 :
  safeWrite_body (tmp_of p) p data w = (r, w1) →
  (r = None
   ∧ nodes w1 = <[p := written w (tmp_of p) data (octal 6 4 0)]>
                  (delete (tmp_of p) (nodes w))
   ∧ run_of w w1 [EvWriteFile (tmp_of p) data (octal 6 4 0); EvRename (tmp_of p) p])
  ∨ (∃ e ev, r = Some e ∧ run_of w w1 ev ∧ Forall (cleanup_event (tmp_of p)) ev
     ∧ ∀ q, q ≠ tmp_of p → nodes w1 !! q = nodes w !! q).
Proof.
  unfold safeWrite_body. unfold mbind at 1, M_bind.
  destruct (ioutil_WriteFile _ _ _ w) as [r0 w0] eqn:Hw.
  apply ioutil_WriteFile_cases in Hw
    as [(-> & Hn0 & Hr0)|(e & -> & [[Hn0 Hr0]|(n & Hn0 & Hr0)])].
  - unfold mbind, M_bind.
    destruct (os_Rename _ _ w0) as [r1 w1'] eqn:Hrn.
    apply os_Rename_cases in Hrn as [(-> & (n & Hl & Hn1) & Hr1)|(e & -> & Hn1 & Hr1)].
    + intros [= <- <-]. left. split; [done|]. split.
      * rewrite Hn1, Hn0 in *. rewrite lookup_insert_eq in Hl.
        injection Hl as <-. by rewrite delete_insert_eq.
      * apply (run_of_trans _ _ _ _ _ Hr0 Hr1).
    + intros [= <- <-]. right. do 2 eexists. split; [done|].
      split; [apply (run_of_trans _ _ _ _ _ Hr0 Hr1)|].
      split; [by repeat constructor|].
      intros q Hq. rewrite Hn1, Hn0. by rewrite lookup_insert_ne.
  - intros [= <- <-]. right. do 2 eexists. split; [done|].
    split; [exact Hr0|]. split; [constructor|]. intros q _. by rewrite Hn0.
  - intros [= <- <-]. right. do 2 eexists. split; [done|].
    split; [exact Hr0|]. split; [by repeat constructor|].
    intros q Hq. rewrite Hn0. by rewrite lookup_insert_ne.
Qed.

Lemma safeWrite_unfold p data w :
  safeWrite p data w =
    let '(r, w1) := safeWrite_body (tmp_of p) p data w in
    (r, (os_Remove (tmp_of p) w1).2).
Proof.
  unfold safeWrite, mbind, M_bind, ret, mret, M_ret.
  destruct (safeWrite_body _ _ _ w) as [r w1].
  by destruct (os_Remove _ w1).
Qed.

Lemma safeWrite_cases p data w r w' : safeWrite p data w = (r, w') →
  (r = None
   ∧ nodes w' = <[p := written w (tmp_of p) data (octal 6 4 0)]>
                  (delete (tmp_of p) (nodes w))
   ∧ run_of w w' [EvWriteFile (tmp_of p) data (octal 6 4 0); EvRename (tmp_of p) p])
  ∨ (∃ e ev, r = Some e ∧ run_of w w' ev ∧ Forall (cleanup_event (tmp_of p)) ev
     ∧ ∀ q, q ≠ tmp_of p → nodes w' !! q = nodes w !! q).
Proof.
  rewrite safeWrite_unfold.
  destruct (safeWrite_body _ _ _ w) as [r0 w1] eqn:Hb.
  destruct (os_Remove (tmp_of p) w1) as [r1 w2] eqn:Hrm. simpl.
  intros [= <- <-].
  pose proof (tmp_of_neq p) as Hne.
  apply safeWrite_body_cases in Hb
    as [(-> & Hn1 & Hr1)|(e & ev & -> & Hr1 & Hev & Hn1)];
    apply os_Remove_cases in Hrm
      as [(-> & Hsome & Hn2 & Hr2)|(e' & -> & Hn2 & Hr2 & _)].
  - exfalso. rewrite Hn1, lookup_insert_ne, lookup_delete_eq in Hsome by done.
    by destruct Hsome.
  - left. split; [done|]. split; [by rewrite Hn2|].
    rewrite <-(app_nil_r [_; _]). apply (run_of_trans _ _ _ _ _ Hr1 Hr2).
  - right. do 2 eexists. split; [done|].
    split; [apply (run_of_trans _ _ _ _ _ Hr1 Hr2)|].
    split; [apply Forall_app; split; [done|by repeat constructor]|].
    intros q Hq. rewrite Hn2, lookup_delete_ne by done. by apply Hn1.
  - right. do 2 eexists. split; [done|].
    split; [apply (run_of_trans _ _ _ _ _ Hr1 Hr2)|].
    split; [by rewrite app_nil_r|].
    intros q Hq. rewrite Hn2. by apply Hn1.
Qed.

Lemma written_ext w1 w2 path data perm :
  nodes w1 = nodes w2 → umask w1 = umask w2 → clock w1 = clock w2 →
  written w1 path data perm = written w2 path data perm.
Proof. unfold written. by intros -> -> ->. Qed.

Lemma on_disk_ext w1 w2 path :
  nodes w1 !! path = nodes w2 !! path → on_disk w1 path = on_disk w2 path.
Proof. unfold on_disk. by intros ->. Qed.


Lemma updateSecret_cases p v w changed err w' :
  updateSecret p v w = ((changed, err), w') →
  (changed = false ∧ err = None ∧ on_disk w p = Some v
   ∧ nodes w' = nodes w ∧ run_of w w' [])
  ∨ (changed = true ∧ (quiet w → on_disk w p ≠ Some v)
     ∧ ((err = None
         ∧ nodes w' = <[p := written w (tmp_of p) v (octal 6 4 0)]>
                        (delete (tmp_of p) (nodes w))
         ∧ run_of w w' [EvWriteFile (tmp_of p) v (octal 6 4 0); EvRename (tmp_of p) p])
        ∨ (∃ e ev, err = Some e ∧ run_of w w' ev
           ∧ Forall (cleanup_event (tmp_of p)) ev
           ∧ ∀ q, q ≠ tmp_of p → nodes w' !! q = nodes w !! q))).
Proof.
  unfold updateSecret. unfold mbind at 1, M_bind.
  destruct (ioutil_ReadFile p w) as [r0 w0] eqn:Hrd.
  apply ioutil_ReadFile_cases in Hrd as (Hn0 & Hr0 & Hok & Hq).
  assert (∀ err w',
    (err0 ← safeWrite p v; ret (true, err0)) w0 = ((changed, err), w') →
    (quiet w → on_disk w p ≠ Some v) →
    changed = true ∧ (quiet w → on_disk w p ≠ Some v)
     ∧ ((err = None
         ∧ nodes w' = <[p := written w (tmp_of p) v (octal 6 4 0)]>
                        (delete (tmp_of p) (nodes w))
         ∧ run_of w w' [EvWriteFile (tmp_of p) v (octal 6 4 0); EvRename (tmp_of p) p])
        ∨ (∃ e ev, err = Some e ∧ run_of w w' ev
           ∧ Forall (cleanup_event (tmp_of p)) ev
           ∧ ∀ q, q ≠ tmp_of p → nodes w' !! q = nodes w !! q))) as Hwrite.
  { intros err1 w1'. unfold mbind, M_bind, ret, mret, M_ret.
    destruct (safeWrite p v w0) as [r1 w1] eqn:Hsw. intros [= <- <- <-] Hdiff.
    split; [done|]. split; [done|].
    pose proof Hr0 as (Ht0 & Hu0 & Hc0 & _).
    apply safeWrite_cases in Hsw
      as [(-> & Hn1 & Hr1)|(e & ev & -> & Hr1 & Hev & Hn1)].
    - left. split; [done|]. split.
      + rewrite Hn1, Hn0. f_equal. by apply written_ext.
      + apply (run_of_trans _ _ _ _ _ Hr0 Hr1).
    - right. exists e, ev. split; [done|].
      split; [apply (run_of_trans _ _ _ _ _ Hr0 Hr1)|]. split; [done|].
      intros q Hne. rewrite <-Hn0. by apply Hn1. }
  destruct r0 as [cur|e0].
  - case_bool_decide as Hcmp.
    + intros [= <- <- <-]. left. subst cur. by rewrite (Hok v eq_refl).
    + intros Hrun. right. apply Hwrite; [done|].
      intros _ Hsame. rewrite (Hok cur eq_refl) in Hsame. congruence.
  - intros Hrun. right. apply Hwrite; [done|].
    intros Hquiet Hsame. by specialize (Hq Hquiet v Hsame).
Qed.

Lemma runOnChanged_run fname fullpath c w :
  ∃ w', runOnChanged fname fullpath (OnChanged c) w = (tt, w')
        ∧ nodes w' = nodes w ∧ run_of w w' (hook_run fname fullpath c).
Proof.
  unfold runOnChanged, hook_run.
  destruct (OnChanged c) as [|x argv]; simpl.
  - exists w. split; [done|]. split; [done|]. apply run_of_refl.
  - eexists. split; [done|]. split; [done|]. apply run_of_emit.
Qed.

(** ** The loops of [extract] *)

Section Extract.

Variable Join : string → string → string.
Variable CryptoHandler : Type.

Local Abbreviation extract_update := (extract_update Join).
Local Abbreviation extract_remove := (extract_remove Join).
Local Abbreviation secret_paths := (secret_paths Join).
Local Abbreviation tmp_paths := (tmp_paths Join).
Local Abbreviation update_event := (update_event Join).
Local Abbreviation remove_event := (remove_event Join).
Local Abbreviation independent := (independent Join).
Local Abbreviation apart := (apart Join).

Lemma extract_update_cons dir f c rest seen w :
  extract_update dir ((f, c) :: rest) seen w =
    let w0 := set_trace (trace w ++ [EvLog "Extracting %s" [f]]) w in
    let '((changed, err), w1) := updateSecret (Join dir f) (Value c) w0 in
    match err with
    | Some e => (({[f]} ∪ seen, Some e), w1)
    | None =>
        extract_update dir rest ({[f]} ∪ seen)
          (if changed then (runOnChanged f (Join dir f) (OnChanged c) w1).2 else w1)
    end.
Proof.
  simpl. unfold mbind, M_bind, log_Printf, emit. simpl.
  destruct (updateSecret _ _ _) as [[changed [e|]] w1]; [done|].
  destruct changed; [|done].
  by destruct (runOnChanged _ _ _ w1) as [[] w2].
Qed.

Lemma update_event_mono dir l l' e :
  l ⊆ l' → update_event dir l e → update_event dir l' e.
Proof.
  intros Hsub. assert (∀ f, f ∈ l.*1 → f ∈ l'.*1) as Hn.
  { intros f (x & -> & Hx)%list_elem_of_fmap. apply list_elem_of_fmap.
    exists x. split; [done|]. by apply Hsub. }
  destruct e; simpl; try done.
  - intros (-> & f & -> & Hf). eauto 6.
  - intros (-> & f & Hf & ->). eauto 6.
  - intros (f & Hf & -> & ->). eauto 6.
  - intros (f & Hf & ->). eauto.
  - intros (c & Hc & -> & ->). eauto 6.
Qed.

Lemma cleanup_update_event dir f c l e :
  (f, c) ∈ l → cleanup_event (tmp_of (Join dir f)) e → update_event dir l e.
Proof.
  intros Hin. assert (f ∈ l.*1) as Hf.
  { apply list_elem_of_fmap. by exists (f, c). }
  destruct e; simpl; try done.
  - intros [-> ->]. eauto.
  - intros ->. eauto.
Qed.

(** Every run of the first loop, whatever its result: what it can leave in
    the trace, and the files it leaves alone. *)
Lemma extract_update_run dir l : ∀ seen w seen' err w',
  extract_update dir l seen w = ((seen', err), w') →
  ∃ ev, run_of w w' ev ∧ Forall (update_event dir l) ev
    ∧ (∀ q, q ∉ secret_paths dir l → q ∉ tmp_paths dir l →
            nodes w' !! q = nodes w !! q)
    ∧ (err = None → seen' = list_to_set l.*1 ∪ seen).
Proof.
  induction l as [|[f c] rest IH]; intros seen w seen' err w'.
  - simpl. unfold ret, mret, M_ret.
    intros [= <- <- <-]. exists []. split; [apply run_of_refl|].
    split; [constructor|]. split; [done|]. intros _. simpl. set_solver.
  - rewrite extract_update_cons. simpl.
    set (w0 := set_trace _ w).
    assert (run_of w w0 [EvLog "Extracting %s" [f]]) as Hr0 by apply run_of_emit.
    assert (update_event dir ((f, c) :: rest) (EvLog "Extracting %s" [f])) as Hlog.
    { simpl. split; [done|]. exists f. split; [done|]. set_solver. }
    destruct (updateSecret _ _ w0) as [[changed err1] w1] eqn:Hup.
    apply updateSecret_cases in Hup
      as [(-> & -> & _ & Hn1 & Hr1)
         |(-> & _ & [(-> & Hn1 & Hr1)|(e & ev1 & -> & Hr1 & Hev1 & Hn1)])].
    + intros Hrest. apply IH in Hrest as (ev & Hr & Hev & Hfr & Hseen).
      exists ([EvLog "Extracting %s" [f]] ++ [] ++ ev).
      split; [run_chain|].
      split.
      { constructor; [done|]. eapply Forall_impl; [done|].
        intros e. apply update_event_mono. set_solver. }
      split.
      { intros q Hq1 Hq2. rewrite Hfr; [by rewrite Hn1| |];
          unfold tmp_paths, secret_paths in *; simpl in *; set_solver. }
      intros Herr. rewrite (Hseen Herr). simpl. set_solver.
    + destruct (runOnChanged_run f (Join dir f) c w1) as (w2 & Hrun & Hn2 & Hr2).
      rewrite Hrun. simpl.
      intros Hrest. apply IH in Hrest as (ev & Hr & Hev & Hfr & Hseen).
      eexists. split; [run_chain|].
      split.
      { constructor; [done|]. repeat apply Forall_app_2.
        - repeat constructor; simpl; [|]; exists f; set_solver.
        - unfold hook_run. destruct (OnChanged c) eqn:Hc; constructor; [|done].
          simpl. exists c. rewrite Hc. set_solver.
        - eapply Forall_impl; [done|].
          intros e. apply update_event_mono. set_solver. }
      split.
      { intros q Hq1 Hq2. rewrite Hfr, Hn2, Hn1;
          unfold tmp_paths, secret_paths in *; simpl in *; [|set_solver..].
        rewrite lookup_insert_ne, lookup_delete_ne; set_solver. }
      intros Herr. rewrite (Hseen Herr). simpl. set_solver.
    + intros [= <- <- <-].
      eexists. split; [run_chain|].
      split.
      { constructor; [done|]. eapply Forall_impl; [done|].
        intros e0. apply (cleanup_update_event dir f c). set_solver. }
      split; [|done].
      intros q Hq1 Hq2. rewrite Hn1; [done|].
      unfold tmp_paths, secret_paths in *; simpl in *. set_solver.
Qed.

Lemma update_event_touches dir l ev p :
  Forall (update_event dir l) ev →
  p ∉ secret_paths dir l → p ∉ tmp_paths dir l →
  List.filter (touches p) ev = [].
Proof.
  intros Hev Hp Ht. induction Hev as [|e ev He _ IH]; simpl; [done|].
  assert (touches p e = false) as ->; [|done].
  assert (∀ f, f ∈ l.*1 → Join dir f ≠ p ∧ tmp_of (Join dir f) ≠ p) as Hfar.
  { intros f (x & -> & Hx)%list_elem_of_fmap. split; intros <-.
    - apply Hp, list_elem_of_fmap. by exists x.
    - apply Ht. unfold tmp_paths. apply list_elem_of_fmap. eexists.
      split; [done|]. apply list_elem_of_fmap. by exists x. }
  destruct e; simpl in *; try done.
  - destruct He as (_ & f & Hf & ->). apply bool_decide_eq_false, Hfar, Hf.
  - destruct He as (f & Hf & -> & ->). destruct (Hfar f Hf).
    by rewrite !bool_decide_eq_false_2.
  - destruct He as (f & Hf & ->). apply bool_decide_eq_false, Hfar, Hf.
Qed.

Lemma update_event_exec dir l ev f :
  Forall (update_event dir l) ev → f ∉ l.*1 →
  List.filter (is_exec_for f) ev = [].
Proof.
  intros Hev Hf. induction Hev as [|e ev He _ IH]; simpl; [done|].
  assert (is_exec_for f e = false) as ->; [|done].
  destruct e; simpl in *; try done.
  destruct He as (c & Hc & _). apply bool_decide_eq_false. intros ->.
  apply Hf, list_elem_of_fmap. by exists (f, c).
Qed.

Lemma written_content w path data perm :
  ∃ mode, written w path data perm = File data mode (clock w).
Proof.
  unfold written. destruct (nodes w !! path) as [[? mode ?|?]|]; eauto.
Qed.

Lemma hook_run_exec f p c : List.filter (is_exec_for f) (hook_run f p c) = hook_run f p c.
Proof.
  unfold hook_run. destruct (OnChanged c); simpl; [done|].
  by rewrite bool_decide_eq_true_2.
Qed.

Lemma hook_run_exec_other f g p c :
  f ≠ g → List.filter (is_exec_for g) (hook_run f p c) = [].
Proof.
  intros Hne. unfold hook_run. destruct (OnChanged c); simpl; [done|].
  by rewrite bool_decide_eq_false_2.
Qed.

Lemma hook_run_touches f p q c : List.filter (touches q) (hook_run f p c) = [].
Proof. unfold hook_run. by destruct (OnChanged c). Qed.

Lemma hook_run_no_removal f p c :
  Forall (λ e, is_removal e = false) (hook_run f p c).
Proof. unfold hook_run. destruct (OnChanged c); by repeat constructor. Qed.

(** A run of the first loop that ends well, over entries with files of
    their own: each entry is on disk in the end; it was put there by one
    write and rename, with one run of its hook, when the disk did not have
    it, and was left alone when the disk had it (and could be read). *)
Lemma extract_update_ok dir l : ∀ seen w seen' w',
  extract_update dir l seen w = ((seen', None), w') →
  NoDup (secret_paths dir l ++ tmp_paths dir l) →
  ∃ ev, run_of w w' ev ∧ Forall (λ e, is_removal e = false) ev
    ∧ ∀ f c, (f, c) ∈ l →
        on_disk w' (Join dir f) = Some (Value c)
        ∧ (on_disk w (Join dir f) ≠ Some (Value c) →
             List.filter (touches (Join dir f)) ev
               = [EvRename (tmp_of (Join dir f)) (Join dir f)]
             ∧ EvWriteFile (tmp_of (Join dir f)) (Value c) (octal 6 4 0) ∈ ev
             ∧ List.filter (is_exec_for f) ev = hook_run f (Join dir f) c)
        ∧ (on_disk w (Join dir f) = Some (Value c) → quiet w →
             List.filter (touches (Join dir f)) ev = []
             ∧ List.filter (is_exec_for f) ev = []
             ∧ nodes w' !! Join dir f = nodes w !! Join dir f).
Proof.
  induction l as [|[f c] rest IH]; intros seen w seen' w'.
  - simpl. unfold ret, mret, M_ret. intros [= <- <-] _. exists [].
    split; [apply run_of_refl|]. split; [constructor|]. intros ?? H.
    by apply elem_of_nil in H.
  - rewrite extract_update_cons. simpl.
    set (p := Join dir f). set (t := tmp_of p).
    set (w0 := set_trace _ w).
    intros Hrun [Hp Hnd]%NoDup_cons.
    apply NoDup_app in Hnd as (Hnd1 & Hnd2 & Hnd3).
    apply NoDup_cons in Hnd3 as [Ht Hnd3].
    assert (NoDup (secret_paths dir rest ++ tmp_paths dir rest)) as Hnd'.
    { apply NoDup_app. split; [done|]. split; [|done].
      intros q Hq Hq'. apply (Hnd2 q Hq). by right. }
    assert ((p ∉ secret_paths dir rest) ∧ (p ∉ tmp_paths dir rest)) as [Hp1 Hp2].
    { split; intros Hin; apply Hp, elem_of_app; [by left|right; by right]. }
    assert (t ∉ secret_paths dir rest) as Ht1.
    { intros Hin. apply (Hnd2 t Hin). by left. }
    assert (f ∉ rest.*1) as Hf.
    { intros (x & -> & Hx)%list_elem_of_fmap. apply Hp1.
      apply list_elem_of_fmap. by exists x. }
    assert (run_of w w0 [EvLog "Extracting %s" [f]]) as Hr0 by apply run_of_emit.
    destruct (updateSecret p (Value c) w0) as [[changed err1] w1] eqn:Hup.
    destruct err1 as [e|]; [done|].
    apply updateSecret_cases in Hup
      as [(-> & _ & Hsame & Hn1 & Hr1)
         |(-> & Hdiff & [(_ & Hn1 & Hr1)|(e & ev1 & [=] & _)])].
    + (* the entry is on disk already *)
      pose proof Hrun as Hrest.
      apply IH in Hrun as (ev & Hr & Hnorm & Hent); [|done].
      apply extract_update_run in Hrest as (ev' & Hr' & Hev & Hfr & _).
      assert (ev' = ev) as ->.
      { destruct Hr as [Ha _], Hr' as [Hb _]. rewrite Ha in Hb.
        by apply app_inv_head in Hb. }
      exists ([EvLog "Extracting %s" [f]] ++ [] ++ ev).
      split; [run_chain|].
      split; [by constructor|].
      intros g d [[= -> ->]|Hin]%elem_of_cons.
      * fold p. rewrite (on_disk_ext w' w1), (on_disk_ext w1 w0) by
          (by rewrite ?Hfr, ?Hn1). split; [done|].
        split; [intros Hne; by destruct Hne|]. intros _ _.
        simpl. rewrite (update_event_touches _ _ _ _ Hev),
          (update_event_exec _ _ _ _ Hev) by done.
        by rewrite Hfr, Hn1.
      * assert (Join dir g ≠ p ∧ Join dir g ≠ t) as [Hgp Hgt].
        { assert (Join dir g ∈ secret_paths dir rest) as Hg.
          { apply list_elem_of_fmap. by exists (g, d). }
          split; intros Heq; rewrite Heq in Hg; done. }
        assert (on_disk w (Join dir g) = on_disk w1 (Join dir g)) as Hod.
        { apply on_disk_ext. by rewrite Hn1. }
        destruct (Hent g d Hin) as (Hfin & Hch & Hun).
        split; [done|]. rewrite Hod. simpl. split.
        -- intros Hne. destruct (Hch Hne) as (? & ? & ?). split; [done|].
           split; [|done]. set_solver.
        -- intros Hs Hq. rewrite Hn1 in Hun.
           apply Hun; [done|]. eapply (run_of_quiet w); [|done].
           run_chain.
    + (* the entry is written *)
      destruct (runOnChanged_run f p c w1) as (w2 & Hrc & Hn2 & Hr2).
      rewrite Hrc in Hrun. simpl in Hrun.
      pose proof Hrun as Hrest.
      apply IH in Hrun as (ev & Hr & Hnorm & Hent); [|done].
      apply extract_update_run in Hrest as (ev' & Hr' & Hev & Hfr & _).
      assert (ev' = ev) as ->.
      { destruct Hr as [Ha _], Hr' as [Hb _]. rewrite Ha in Hb.
        by apply app_inv_head in Hb. }
      exists ([EvLog "Extracting %s" [f]]
                ++ [EvWriteFile t (Value c) (octal 6 4 0); EvRename t p]
                ++ hook_run f p c ++ ev).
      split; [run_chain|].
      split.
      { repeat (apply Forall_cons; split; [done|]).
        apply Forall_app. split; [apply hook_run_no_removal|done]. }
      intros g d [[= -> ->]|Hin]%elem_of_cons.
      * fold p. fold t.
        assert (on_disk w' p = Some (Value c)) as Hfin.
        { rewrite (on_disk_ext w' w2) by by rewrite Hfr.
          unfold on_disk. rewrite Hn2, Hn1, lookup_insert_eq.
          by destruct (written_content w0 (tmp_of p) (Value c) (octal 6 4 0)) as [? ->]. }
        split; [done|]. split.
        -- intros _. simpl.
           rewrite !List.filter_app, hook_run_touches, hook_run_exec,
             (update_event_touches _ _ _ _ Hev),
             (update_event_exec _ _ _ _ Hev) by done.
           rewrite (bool_decide_eq_false_2 (t = p)) by apply tmp_of_neq.
           rewrite (bool_decide_eq_true_2 (p = p)) by done.
           simpl. rewrite app_nil_r. split; [done|]. split; [|done].
           set_solver.
        -- intros Hs Hq. exfalso. apply Hdiff; [|done].
           eapply run_of_quiet; done.
      * assert (Join dir g ≠ p ∧ Join dir g ≠ t ∧ g ≠ f) as (Hgp & Hgt & Hgf).
        { assert (Join dir g ∈ secret_paths dir rest) as Hg.
          { apply list_elem_of_fmap. by exists (g, d). }
          split; [|split]; [intros Heq; rewrite Heq in Hg; done..|].
          intros ->. done. }
        assert (nodes w2 !! Join dir g = nodes w !! Join dir g) as Hlk.
        { by rewrite Hn2, Hn1, lookup_insert_ne, lookup_delete_ne. }
        destruct (Hent g d Hin) as (Hfin & Hch & Hun).
        split; [done|].
        rewrite <-(on_disk_ext w2 w (Join dir g)) by done. simpl.
        rewrite !List.filter_app, hook_run_touches, hook_run_exec_other by done.
        rewrite !(bool_decide_eq_false_2 (t = Join dir g)),
          !(bool_decide_eq_false_2 (p = Join dir g)) by done. simpl.
        split.
        -- intros Hne. destruct (Hch Hne) as (? & ? & ?). split; [done|].
           split; [|done]. set_solver.
        -- intros Hs Hq. rewrite <-Hlk. apply Hun; [done|].
           eapply (run_of_quiet w); [|done]. run_chain.
Qed.

Lemma extract_remove_cons dir f c rest seen w :
  extract_remove dir ((f, c) :: rest) seen w =
    if bool_decide (f ∈ seen) then extract_remove dir rest seen w
    else
      let w0 := set_trace (trace w ++ [EvLog "Removing %s" [f]]) w in
      let '(r, w1) := os_Remove (Join dir f) w0 in
      let go := extract_remove dir rest seen
                  (runOnChanged f (Join dir f) (OnChanged c) w1).2 in
      match r with
      | Some err => if negb (os_IsNotExist err) then (Some err, w1) else go
      | None => go
      end.
Proof.
  simpl. case_bool_decide; [done|].
  unfold mbind, M_bind, log_Printf, emit. simpl.
  destruct (os_Remove _ _) as [[e|] w1].
  - destruct (os_IsNotExist e); simpl; [|done].
    by destruct (runOnChanged _ _ _ w1) as [[] w2].
  - by destruct (runOnChanged _ _ _ w1) as [[] w2].
Qed.

Lemma remove_event_mono dir l l' seen e :
  l ⊆ l' → remove_event dir l seen e → remove_event dir l' seen e.
Proof.
  intros Hsub. assert (∀ f, f ∈ l.*1 → f ∈ l'.*1) as Hn.
  { intros f (x & -> & Hx)%list_elem_of_fmap. apply list_elem_of_fmap.
    exists x. split; [done|]. by apply Hsub. }
  destruct e; simpl; try done.
  - intros (-> & f & -> & Hf & ?). eauto 7.
  - intros (f & Hf & ? & ->). eauto 6.
  - intros (c & Hc & ? & -> & ->). eauto 7.
Qed.

(** Every run of the second loop, whatever its result: what it can leave
    in the trace; it creates nothing and leaves alone what no name of its
    own designates. *)
Lemma extract_remove_run dir l seen : ∀ w err w',
  extract_remove dir l seen w = (err, w') →
  ∃ ev, run_of w w' ev ∧ Forall (remove_event dir l seen) ev
    ∧ (∀ q, nodes w' !! q = nodes w !! q ∨ nodes w' !! q = None)
    ∧ (∀ q, (∀ g, g ∈ l.*1 → g ∉ seen → Join dir g ≠ q) →
            nodes w' !! q = nodes w !! q).
Proof.
  induction l as [|[f c] rest IH]; intros w err w'.
  - simpl. unfold ret, mret, M_ret. intros [= <- <-]. exists [].
    split; [apply run_of_refl|]. split; [constructor|]. split; auto.
  - rewrite extract_remove_cons. case_bool_decide as Hseen.
    { intros Hrest. apply IH in Hrest as (ev & Hr & Hev & Hdel & Hfr).
      exists ev. split; [done|]. split.
      - eapply Forall_impl; [done|]. intros e. apply remove_event_mono. set_solver.
      - split; [done|]. intros q Hq. apply Hfr. intros g Hg. apply Hq.
        simpl. set_solver. }
    simpl. set (w0 := set_trace _ w).
    assert (run_of w w0 [EvLog "Removing %s" [f]]) as Hr0 by apply run_of_emit.
    assert (remove_event dir ((f, c) :: rest) seen (EvLog "Removing %s" [f])) as Hlog.
    { simpl. split; [done|]. exists f. split; [done|]. split; [set_solver|done]. }
    destruct (os_Remove (Join dir f) w0) as [r w1] eqn:Hrm.
    destruct (runOnChanged_run f (Join dir f) c w1) as (w2 & Hrc & Hn2 & Hr2).
    rewrite Hrc. simpl.
    assert (Forall (remove_event dir ((f, c) :: rest) seen)
              (hook_run f (Join dir f) c)) as Hhook.
    { unfold hook_run. destruct (OnChanged c) eqn:Hc; constructor; [|done].
      simpl. exists c. rewrite Hc. split; [set_solver|done]. }
    assert (∀ ev1,
      run_of w0 w1 ev1 → Forall (remove_event dir ((f, c) :: rest) seen) ev1 →
      (nodes w1 = nodes w0 ∨ nodes w1 = delete (Join dir f) (nodes w0)) →
      extract_remove dir rest seen w2 = (err, w') →
      ∃ ev, run_of w w' ev ∧ Forall (remove_event dir ((f, c) :: rest) seen) ev
        ∧ (∀ q, nodes w' !! q = nodes w !! q ∨ nodes w' !! q = None)
        ∧ (∀ q, (∀ g, g ∈ ((f, c) :: rest).*1 → g ∉ seen → Join dir g ≠ q) →
                nodes w' !! q = nodes w !! q)) as Hgo.
    { intros ev1 Hr1 Hev1 Hn1 Hrest.
      apply IH in Hrest as (ev & Hr & Hev & Hdel & Hfr).
      exists ([EvLog "Removing %s" [f]] ++ ev1 ++ hook_run f (Join dir f) c ++ ev).
      split; [run_chain|]. split.
      { constructor; [done|]. repeat apply Forall_app_2; try done.
        eapply Forall_impl; [done|]. intros e. apply remove_event_mono. set_solver. }
      split.
      - intros q. destruct (Hdel q) as [->| ->]; [|by right]. rewrite Hn2.
        destruct Hn1 as [->| ->]; [by left|].
        destruct (decide (Join dir f = q)) as [<-|].
        + right. apply lookup_delete_eq.
        + left. by rewrite lookup_delete_ne.
      - intros q Hq. rewrite Hfr, Hn2.
        + destruct Hn1 as [->| ->]; [done|]. rewrite lookup_delete_ne; [done|].
          apply Hq; [simpl; set_solver|done].
        + intros g Hg. apply Hq. simpl. set_solver. }
    apply os_Remove_cases in Hrm
      as [(-> & _ & Hn1 & Hr1)|(e & -> & Hn1 & Hr1 & _)].
    + apply (Hgo _ Hr1); [|by right].
      repeat constructor. simpl. exists f. split; [set_solver|done].
    + destruct (os_IsNotExist e); simpl;
        [apply (Hgo _ Hr1); [constructor|by left]|].
      intros [= <- <-]. exists ([EvLog "Removing %s" [f]] ++ []).
      split; [run_chain|]. split; [simpl; constructor; [done|constructor]|].
      split; [left|intros q _]; by rewrite Hn1.
Qed.

Lemma remove_event_exec dir l seen ev f :
  Forall (remove_event dir l seen) ev → f ∉ l.*1 ∨ f ∈ seen →
  List.filter (is_exec_for f) ev = [].
Proof.
  intros Hev Hf. induction Hev as [|e ev He _ IH]; simpl; [done|].
  assert (is_exec_for f e = false) as ->; [|done].
  destruct e; simpl in *; try done.
  destruct He as (c & Hc & Hns & _). apply bool_decide_eq_false. intros ->.
  destruct Hf as [Hf|Hf]; [|done]. apply Hf, list_elem_of_fmap. by exists (f, c).
Qed.

(** A run of the second loop that ends well: every file that [prev] alone
    names is gone, and its hook has run once. *)
Lemma extract_remove_ok dir l seen : ∀ w w',
  extract_remove dir l seen w = (None, w') →
  NoDup l.*1 →
  ∃ ev, run_of w w' ev
    ∧ ∀ f c, (f, c) ∈ l → f ∉ seen →
        nodes w' !! Join dir f = None
        ∧ List.filter (is_exec_for f) ev = hook_run f (Join dir f) c.
Proof.
  induction l as [|[f c] rest IH]; intros w w'.
  - simpl. unfold ret, mret, M_ret. intros [= <-] _. exists [].
    split; [apply run_of_refl|]. intros ?? H. by apply elem_of_nil in H.
  - rewrite extract_remove_cons. simpl. intros Hrun [Hf Hnd]%NoDup_cons.
    case_bool_decide as Hseen.
    { apply IH in Hrun as (ev & Hr & Hent); [|done].
      exists ev. split; [done|].
      intros g d [[= -> ->]|Hin]%elem_of_cons Hg; [done|]. by apply Hent. }
    set (w0 := set_trace _ w) in *.
    assert (run_of w w0 [EvLog "Removing %s" [f]]) as Hr0 by apply run_of_emit.
    destruct (os_Remove (Join dir f) w0) as [r w1] eqn:Hrm.
    destruct (runOnChanged_run f (Join dir f) c w1) as (w2 & Hrc & Hn2 & Hr2).
    rewrite Hrc in Hrun. simpl in Hrun.
    assert (∃ ev1, run_of w0 w1 ev1 ∧ List.filter (is_exec_for f) ev1 = []
              ∧ (∀ g, List.filter (is_exec_for g) ev1 = [])
              ∧ nodes w1 !! Join dir f = None
              ∧ extract_remove dir rest seen w2 = (None, w'))
      as (ev1 & Hr1 & Hx1 & Hx1' & Hgone & Hrest).
    { apply os_Remove_cases in Hrm
        as [(-> & _ & Hn1 & Hr1)|(e & -> & Hn1 & Hr1 & Hne)].
      - eexists. split; [done|]. repeat split; try done.
        rewrite Hn1. apply lookup_delete_eq.
      - destruct (os_IsNotExist e); simpl in Hrun; [|done].
        eexists. split; [done|]. repeat split; try done.
        rewrite Hn1. by apply Hne. }
    pose proof Hrest as Hrest'.
    apply IH in Hrest as (ev & Hr & Hent); [|done].
    apply extract_remove_run in Hrest' as (ev' & Hr' & Hev & Hdel & _).
    assert (ev' = ev) as ->.
    { destruct Hr as [Ha _], Hr' as [Hb _]. rewrite Ha in Hb.
      by apply app_inv_head in Hb. }
    exists ([EvLog "Removing %s" [f]] ++ ev1 ++ hook_run f (Join dir f) c ++ ev).
    split; [run_chain|].
    intros g d [[= -> ->]|Hin]%elem_of_cons Hg.
    + split.
      * destruct (Hdel (Join dir f)) as [->| ->]; [|done]. by rewrite Hn2.
      * simpl. rewrite !List.filter_app, Hx1, hook_run_exec,
          (remove_event_exec _ _ _ _ _ Hev) by by left.
        by rewrite app_nil_r.
    + assert (f ≠ g) as Hfg.
      { intros ->. apply Hf, list_elem_of_fmap. by exists (g, d). }
      destruct (Hent g d Hin Hg) as [Hgone' Hx]. split; [done|].
      simpl. by rewrite !List.filter_app, Hx1', hook_run_exec_other.
Qed.

Lemma remove_event_touches dir l seen ev q :
  Forall (remove_event dir l seen) ev →
  (∀ g, g ∈ l.*1 → g ∉ seen → Join dir g ≠ q) →
  List.filter (touches q) ev = [].
Proof.
  intros Hev Hq. induction Hev as [|e ev He _ IH]; simpl; [done|].
  assert (touches q e = false) as ->; [|done].
  destruct e; simpl in *; try done.
  destruct He as (g & Hg & Hns & ->). apply bool_decide_eq_false. by apply Hq.
Qed.

Lemma remove_event_not_update dir l seen ev :
  Forall (remove_event dir l seen) ev → Forall (λ e, is_update e = false) ev.
Proof.
  intros Hev. eapply Forall_impl; [exact Hev|].
  intros e. destruct e; simpl; try done. by intros [-> _].
Qed.


(** A run of the first loop that ends well has gone through every
    entry, and has removed nothing. *)
Lemma extract_update_complete dir l : ∀ seen w seen' w',
  extract_update dir l seen w = ((seen', None), w') →
  ∃ ev, run_of w w' ev ∧ Forall (λ e, is_removal e = false) ev
    ∧ ∀ f, f ∈ l.*1 → EvLog "Extracting %s" [f] ∈ ev.
Proof.
  induction l as [|[f c] rest IH]; intros seen w seen' w'.
  - simpl. unfold ret, mret, M_ret. intros [= <- <-]. exists [].
    split; [apply run_of_refl|]. split; [constructor|]. intros ? H.
    by apply elem_of_nil in H.
  - rewrite extract_update_cons. simpl. set (w0 := set_trace _ w).
    assert (run_of w w0 [EvLog "Extracting %s" [f]]) as Hr0 by apply run_of_emit.
    destruct (updateSecret _ _ w0) as [[changed [e|]] w1] eqn:Hup; [done|].
    destruct (runOnChanged_run f (Join dir f) c w1) as (w2 & Hrc & Hn2 & Hr2).
    apply updateSecret_cases in Hup
      as [(-> & _ & _ & _ & Hr1)|(-> & _ & [(_ & _ & Hr1)|(? & ? & [=] & _)])];
      rewrite ?Hrc; simpl; intros (ev & Hr & Hnorm & Hlogs)%IH.
    + exists ([EvLog "Extracting %s" [f]] ++ [] ++ ev).
      split; [run_chain|]. split; [by constructor|].
      intros g [->|Hg]%elem_of_cons; [set_solver|]. specialize (Hlogs g Hg).
      set_solver.
    + eexists ([EvLog "Extracting %s" [f]] ++ _ ++ hook_run f (Join dir f) c ++ ev).
      split; [run_chain|]. split.
      { repeat (apply Forall_cons; split; [done|]).
        apply Forall_app. split; [apply hook_run_no_removal|done]. }
      intros g [->|Hg]%elem_of_cons; [set_solver|]. specialize (Hlogs g Hg).
      set_solver.
Qed.

Lemma extract_unfold a crypto cfg w :
  extract Join CryptoHandler a crypto cfg w =
    let '(st, w0) := os_Stat (SecretsDir a) w in
    match st with
    | Err err => (Some err, w0)
    | Ok _ =>
        let '((seen, err), w1) :=
          extract_update (SecretsDir a) (entries (next cfg)) ∅ w0 in
        match err with
        | Some e => (Some e, w1)
        | None =>
            match prev cfg with
            | None => (None, w1)
            | Some prev_entries => extract_remove (SecretsDir a) prev_entries seen w1
            end
        end
    end.
Proof.
  unfold extract, mbind, M_bind.
  destruct (os_Stat _ w) as [[fi|e] w0]; [|done].
  destruct (extract_update _ _ _ w0) as [[seen [e|]] w1]; [done|].
  by destruct (prev cfg).
Qed.

Local Abbreviation extract := (extract Join CryptoHandler).

Lemma remove_event_nil dir seen ev : Forall (remove_event dir [] seen) ev → ev = [].
Proof.
  destruct 1 as [|e ev He _]; [done|]. exfalso.
  destruct e; simpl in He; try done.
  - destruct He as (_ & f & _ & Hf & _). by apply elem_of_nil in Hf.
  - destruct He as (f & Hf & _). by apply elem_of_nil in Hf.
  - destruct He as (c & Hc & _). by apply elem_of_nil in Hc.
Qed.

Lemma extract_remove_prev dir cfg seen w :
  match prev cfg with
  | None => (None, w)
  | Some prev_entries => extract_remove dir prev_entries seen w
  end = extract_remove dir (entries (prev cfg)) seen w.
Proof. by destruct (prev cfg). Qed.

Lemma names_seen (l : list (string * ConfigFile)) f :
  f ∈ (list_to_set l.*1 ∪ ∅ : gset string) ↔ f ∈ l.*1.
Proof. set_solver. Qed.

(** C1 (as amended). When the entries of [next] have files of their own
    and no file that [prev] alone names is in their way, a run of [extract]
    that returns no error has done this: every file named by [prev] and not
    by [next] is gone from the secrets directory and its hook has run
    exactly once; every entry of [next] that the disk did not hold has been
    written (one write of the temporary file and one rename onto its path)
    and its hook has run exactly once; every entry of [next] that the disk
    held, in a run where no system call is refused, has had neither its
    file touched nor its hook run.  With no [prev] nothing is removed. *)
Theorem extract_materializes a crypto cfg w w' :
  independent (SecretsDir a) (next cfg) →
  apart (SecretsDir a) (prev cfg) (next cfg) →
  NoDup (names (prev cfg)) →
  extract a crypto cfg w = (None, w') →
  ∃ ev, trace w' = trace w ++ ev
    ∧ (∀ f c, (f, c) ∈ entries (prev cfg) → f ∉ names (next cfg) →
         nodes w' !! Join (SecretsDir a) f = None
         ∧ List.filter (is_exec_for f) ev = hook_run f (Join (SecretsDir a) f) c)
    ∧ (∀ f c, (f, c) ∈ entries (next cfg) →
         on_disk w (Join (SecretsDir a) f) ≠ Some (Value c) →
         on_disk w' (Join (SecretsDir a) f) = Some (Value c)
         ∧ List.filter (touches (Join (SecretsDir a) f)) ev
             = [EvRename (tmp_of (Join (SecretsDir a) f)) (Join (SecretsDir a) f)]
         ∧ EvWriteFile (tmp_of (Join (SecretsDir a) f)) (Value c) (octal 6 4 0) ∈ ev
         ∧ List.filter (is_exec_for f) ev = hook_run f (Join (SecretsDir a) f) c)
    ∧ (∀ f c, (f, c) ∈ entries (next cfg) →
         on_disk w (Join (SecretsDir a) f) = Some (Value c) → quiet w →
         nodes w' !! Join (SecretsDir a) f = nodes w !! Join (SecretsDir a) f
         ∧ List.filter (touches (Join (SecretsDir a) f)) ev = []
         ∧ List.filter (is_exec_for f) ev = [])
    ∧ (prev cfg = None → Forall (λ e, is_removal e = false) ev).
Proof.
  intros Hind Hapart Hnd. rewrite extract_unfold.
  set (dir := SecretsDir a) in *.
  destruct (os_Stat dir w) as [[fi|e] w0] eqn:Hst; [|done].
  apply os_Stat_cases in Hst as (Hn0 & Hr0 & _ & _).
  destruct (extract_update dir _ ∅ w0) as [[seen [e|]] w1] eqn:Hup; [done|].
  rewrite extract_remove_prev. intros Hrm.
  pose proof Hup as Hup'.
  apply extract_update_ok in Hup as (evu & Hru & Hnorm & Hent); [|done].
  apply extract_update_run in Hup' as (evu' & Hru' & Hevu & _ & Hseen).
  assert (evu' = evu) as ->.
  { destruct Hru as [Ha _], Hru' as [Hb _]. rewrite Ha in Hb.
    by apply app_inv_head in Hb. }
  specialize (Hseen eq_refl). subst seen.
  pose proof Hrm as Hrm'.
  apply extract_remove_ok in Hrm as (evr & Hrr & Hgone); [|done].
  apply extract_remove_run in Hrm' as (evr' & Hrr' & Hevr & _ & Hfr).
  assert (evr' = evr) as ->.
  { destruct Hrr as [Ha _], Hrr' as [Hb _]. rewrite Ha in Hb.
    by apply app_inv_head in Hb. }
  assert (∀ f c, (f, c) ∈ entries (next cfg) →
            nodes w' !! Join dir f = nodes w1 !! Join dir f
            ∧ List.filter (touches (Join dir f)) evr = []
            ∧ List.filter (is_exec_for f) evr = []) as Hkeep.
  { intros f c Hin.
    assert (f ∈ names (next cfg)) as Hf.
    { apply list_elem_of_fmap. by exists (f, c). }
    assert (∀ g, g ∈ (entries (prev cfg)).*1 →
              g ∉ (list_to_set (entries (next cfg)).*1 ∪ ∅ : gset string) →
              Join dir g ≠ Join dir f) as Hfar.
    { intros g Hg Hns Heq. apply (Hapart g Hg); [by rewrite names_seen in Hns|].
      rewrite Heq. apply list_elem_of_fmap. by exists (f, c). }
    split; [by apply Hfr|]. split; [by eapply remove_event_touches|].
    eapply remove_event_exec; [done|]. right. by apply names_seen. }
  exists ([] ++ evu ++ evr). split.
  { assert (run_of w w' ([] ++ evu ++ evr)) as [? _] by run_chain. done. }
  simpl. split; [|split; [|split]].
  - intros f c Hin Hf. destruct (Hgone f c Hin) as [? Hx]; [by rewrite names_seen|].
    split; [done|].
    by rewrite List.filter_app, (update_event_exec _ _ _ _ Hevu), Hx.
  - intros f c Hin Hne.
    destruct (Hent f c Hin) as (Hfin & Hch & _).
    destruct (Hkeep f c Hin) as (Hk1 & Hk2 & Hk3).
    destruct Hch as (Ht & Hw & Hx); [by rewrite (on_disk_ext w0 w) by by rewrite Hn0|].
    rewrite !List.filter_app, Hk2, Hk3, Ht, Hx, !app_nil_r.
    split; [by rewrite (on_disk_ext w' w1)|]. split; [done|]. split; [|done].
    set_solver.
  - intros f c Hin Hs Hq.
    destruct (Hent f c Hin) as (_ & _ & Hun).
    destruct (Hkeep f c Hin) as (Hk1 & Hk2 & Hk3).
    destruct Hun as (Ht & Hx & Hlk).
    { by rewrite (on_disk_ext w0 w) by by rewrite Hn0. }
    { by eapply run_of_quiet. }
    rewrite !List.filter_app, Hk2, Hk3, Ht, Hx, Hk1, Hlk, Hn0. done.
  - intros Hnone. rewrite Hnone in Hevr. simpl in Hevr.
    apply remove_event_nil in Hevr as ->. by rewrite app_nil_r.
Qed.








(** ** Applying a bundle twice *)

(** The first loop on a disk that holds every entry, no call being
    refused: nothing is written and no hook is run. *)
Lemma extract_update_unchanged dir l : ∀ seen w,
  quiet w →
  (∀ f c, (f, c) ∈ l → on_disk w (Join dir f) = Some (Value c)) →
  ∃ seen' w' ev,
    extract_update dir l seen w = ((seen', None), w')
    ∧ seen' = list_to_set l.*1 ∪ seen
    ∧ nodes w' = nodes w ∧ run_of w w' ev
    ∧ Forall (λ e, mutates e = false ∧ is_exec e = false) ev.
Proof.
  induction l as [|[f c] rest IH]; intros seen w Hq Hdisk.
  - exists seen, w, []. split; [done|]. split; [set_solver|]. split; [done|].
    split; [apply run_of_refl|constructor].
  - rewrite extract_update_cons. simpl. set (w0 := set_trace _ w).
    assert (run_of w w0 [EvLog "Extracting %s" [f]]) as Hr0 by apply run_of_emit.
    assert (quiet w0) as Hq0 by by eapply run_of_quiet.
    destruct (updateSecret _ _ w0) as [[changed err] w1] eqn:Hup.
    apply updateSecret_cases in Hup
      as [(-> & -> & _ & Hn1 & Hr1)|(_ & Hdiff & _)].
    2:{ exfalso. apply Hdiff; [done|]. apply (Hdisk f c). set_solver. }
    destruct (IH ({[f]} ∪ seen) w1) as (seen' & w' & ev & Hrun & -> & Hn & Hr & Hev).
    { by eapply run_of_quiet. }
    { intros g d Hin. rewrite (on_disk_ext w1 w) by by rewrite Hn1.
      apply Hdisk. set_solver. }
    exists (list_to_set rest.*1 ∪ ({[f]} ∪ seen)), w',
      ([EvLog "Extracting %s" [f]] ++ [] ++ ev).
    split; [done|]. split; [set_solver|]. split; [by rewrite Hn, Hn1|].
    split; [run_chain|]. by constructor.
Qed.

Lemma extract_remove_all_seen dir l (seen : gset string) w :
  (∀ f, f ∈ l.*1 → f ∈ seen) → extract_remove dir l seen w = (None, w).
Proof.
  induction l as [|[f c] rest IH]; intros Hseen; [done|].
  rewrite extract_remove_cons. rewrite bool_decide_eq_true_2 by set_solver.
  apply IH. set_solver.
Qed.

(** After a run of [extract] that returns no error, every entry of [next]
    is on disk, when the entries have files of their own and no removed
    file is in their way. *)
Lemma extract_on_disk a crypto cfg w w' :
  independent (SecretsDir a) (next cfg) →
  apart (SecretsDir a) (prev cfg) (next cfg) →
  extract a crypto cfg w = (None, w') →
  ∀ f c, (f, c) ∈ entries (next cfg) →
         on_disk w' (Join (SecretsDir a) f) = Some (Value c).
Proof.
  intros Hind Hapart. rewrite extract_unfold. set (dir := SecretsDir a) in *.
  destruct (os_Stat dir w) as [[fi|e] w0]; [|done].
  destruct (extract_update dir _ ∅ w0) as [[seen [e|]] w1] eqn:Hup; [done|].
  rewrite extract_remove_prev. intros Hrm f c Hin.
  pose proof Hup as Hup'.
  apply extract_update_ok in Hup as (evu & _ & _ & Hent); [|done].
  apply extract_update_run in Hup' as (_ & _ & _ & _ & Hseen).
  specialize (Hseen eq_refl). subst seen.
  apply extract_remove_run in Hrm as (evr & _ & _ & _ & Hfr).
  destruct (Hent f c Hin) as [<- _]. apply on_disk_ext, Hfr.
  intros g Hg Hns Heq. apply (Hapart g Hg); [by rewrite names_seen in Hns|].
  rewrite Heq. apply list_elem_of_fmap. by exists (f, c).
Qed.

(** C2 (as amended). Let a bundle [B], whose entries have files of their
    own, be applied without error, and then applied again, with [B] as
    [prev], on the same files and with no system call refused.  The
    second application writes no file, removes none and runs no hook. *)
Theorem extract_twice a crypto prev0 B w w1 w1' r2 w2 :
  independent (SecretsDir a) B →
  apart (SecretsDir a) prev0 B →
  extract a crypto (mkSnapshot prev0 B) w = (None, w1) →
  nodes w1' = nodes w1 → quiet w1' →
  extract a crypto (mkSnapshot B B) w1' = (r2, w2) →
  ∃ ev, trace w2 = trace w1' ++ ev
    ∧ Forall (λ e, mutates e = false ∧ is_exec e = false) ev
    ∧ nodes w2 = nodes w1'.
Proof.
  intros Hind Hapart Hfirst Hsame Hq.
  pose proof (extract_on_disk a crypto (mkSnapshot prev0 B) w w1 Hind Hapart Hfirst)
    as Hdisk.
  simpl in Hdisk. rewrite extract_unfold.
  change (next (mkSnapshot B B)) with B.
  set (dir := SecretsDir a) in *.
  destruct (os_Stat dir w1') as [st w3] eqn:Hst.
  apply os_Stat_cases in Hst as (Hn3 & Hr3 & _ & _).
  destruct st as [fi|e].
  2:{ intros [= <- <-]. exists []. split; [by destruct Hr3|]. by split. }
  destruct (extract_update_unchanged dir (entries B) ∅ w3)
    as (seen & w4 & ev & Hrun & -> & Hn4 & Hr4 & Hev).
  { by eapply run_of_quiet. }
  { intros f c Hin. rewrite (on_disk_ext w3 w1) by by rewrite Hn3, Hsame.
    by apply Hdisk. }
  rewrite Hrun, extract_remove_prev.
  change (prev (mkSnapshot B B)) with B.
  rewrite extract_remove_all_seen by set_solver.
  intros [= <- <-]. exists ([] ++ ev).
  split. { assert (run_of w1' w4 ([] ++ ev)) as [-> _] by run_chain. done. }
  split; [done|]. by rewrite Hn4, Hn3.
Qed.

(** Every run of [extract] leaves alone what is not the file, or the
    temporary file, of an entry of [next], nor the file of a name that
    [prev] alone has. *)
Lemma extract_frame a crypto cfg w r w' q :
  extract a crypto cfg w = (r, w') →
  q ∉ secret_paths (SecretsDir a) (entries (next cfg)) →
  q ∉ tmp_paths (SecretsDir a) (entries (next cfg)) →
  (∀ g, g ∈ names (prev cfg) → g ∉ names (next cfg) → Join (SecretsDir a) g ≠ q) →
  nodes w' !! q = nodes w !! q.
Proof.
  rewrite extract_unfold. set (dir := SecretsDir a) in *.
  destruct (os_Stat dir w) as [st w0] eqn:Hst.
  apply os_Stat_cases in Hst as (Hn0 & _).
  destruct st as [fi|e]; [|intros [= <- <-]; by rewrite Hn0].
  destruct (extract_update dir _ ∅ w0) as [[seen err] w1] eqn:Hup.
  apply extract_update_run in Hup as (upd & _ & _ & Hfr & Hseen).
  intros Hrun Hq1 Hq2 Hq3. rewrite <-Hn0, <-(Hfr q) by done.
  destruct err as [e|]; [by injection Hrun as <- <-|].
  specialize (Hseen eq_refl). subst seen. rewrite extract_remove_prev in Hrun.
  apply extract_remove_run in Hrun as (rm & _ & _ & _ & Hfr').
  apply Hfr'. intros g Hg Hns. apply Hq3; [done|]. by rewrite names_seen in Hns.
Qed.

(** X30. Every file that [extract] writes is written with mode 0640. *)
Lemma extract_writes_0640 a crypto cfg w r w' ev p data perm :
  extract a crypto cfg w = (r, w') → trace w' = trace w ++ ev →
  EvWriteFile p data perm ∈ ev → perm = octal 6 4 0.
Proof.
  rewrite extract_unfold. set (dir := SecretsDir a) in *.
  destruct (os_Stat dir w) as [st w0] eqn:Hst.
  apply os_Stat_cases in Hst as (_ & Hr0 & _).
  assert (∀ w1 upd rm, run_of w0 w1 upd → run_of w1 w' rm →
            Forall (update_event dir (entries (next cfg))) upd →
            Forall (λ e, is_update e = false) rm →
            trace w' = trace w ++ ev → EvWriteFile p data perm ∈ ev →
            perm = octal 6 4 0) as Hall.
  { intros w1 upd rm Hru Hrr Hupd Hrm Htr Hin.
    assert (run_of w w' ([] ++ upd ++ rm)) as [Htr' _] by run_chain.
    rewrite Htr in Htr'. apply app_inv_head in Htr'. subst ev. simpl in Hin.
    apply elem_of_app in Hin as [Hin|Hin].
    - eapply Forall_forall in Hupd; [|done]. by destruct Hupd.
    - eapply Forall_forall in Hrm; [|done]. done. }
  destruct st as [fi|e].
  2:{ intros [= <- <-]. apply (Hall w0 [] []); (apply run_of_refl || constructor). }
  destruct (extract_update dir _ ∅ w0) as [[seen err] w1] eqn:Hup.
  apply extract_update_run in Hup as (upd & Hru & Hevu & _ & _).
  destruct err as [e|].
  { intros [= <- <-]. apply (Hall w1 upd []); try done;
      (apply run_of_refl || constructor). }
  rewrite extract_remove_prev. intros (rm & Hrr & Hevr & _)%extract_remove_run.
  apply (Hall w1 upd rm); try done. by eapply remove_event_not_update.
Qed.

End Extract.

(** ** [safeWrite] and its temporary file *)


(** A secret file that [safeWrite] creates has mode 0640 less the umask:
    nothing for other users. *)
Lemma safeWrite_creates_0640 p data w w' :
  safeWrite p data w = (None, w') → nodes w !! tmp_of p = None →
  mode_of w' p = Some (Z.land (octal 6 4 0) (Z.lnot (umask w)))
  ∧ Z.land (Z.land (octal 6 4 0) (Z.lnot (umask w))) (octal 0 0 7) = 0.
Proof.
  intros Hsw Hnew.
  apply safeWrite_cases in Hsw as [(_ & Hn & _)|(e & ev & [=] & _)]. split.
  - unfold mode_of. rewrite Hn, lookup_insert_eq. unfold written. by rewrite Hnew.
  - rewrite <-Z.land_assoc, (Z.land_comm (Z.lnot _)), Z.land_assoc.
    change (Z.land (octal 6 4 0) (octal 0 0 7)) with 0. apply Z.land_0_l.
Qed.

(** ** [checkin] *)

Section CheckIn.

Variable Join : string → string → string.
Variable url_error : string → option error.
Variable time_Format_RFC1123 : Z → string.
Variable time_Parse_RFC1123 : string → result Z.
Variable CryptoHandler : Type.
Variable UnmarshallBuffer :
  option CryptoHandler → string → bool → ConfigStruct * option error.
Variable UnmarshallFile :
  option CryptoHandler → string → bool → World → ConfigStruct * option error.

Local Abbreviation secret_paths := (secret_paths Join).
Local Abbreviation tmp_paths := (tmp_paths Join).
Local Abbreviation extract := (extract Join CryptoHandler).
Local Abbreviation checkin_request := (checkin_request url_error time_Format_RFC1123).
Local Abbreviation checkin_200 :=
  (checkin_200 Join time_Parse_RFC1123 CryptoHandler UnmarshallBuffer UnmarshallFile).
Local Abbreviation checkin_response :=
  (checkin_response Join time_Parse_RFC1123 CryptoHandler UnmarshallBuffer
     UnmarshallFile).
Local Abbreviation checkin :=
  (checkin Join url_error time_Format_RFC1123 time_Parse_RFC1123 CryptoHandler
     UnmarshallBuffer UnmarshallFile).

Lemma checkin_request_run a w r w0 :
  checkin_request a w = (r, w0) → nodes w0 = nodes w ∧ run_of w w0 [].
Proof.
  unfold checkin_request, http_NewRequest.
  destruct (url_error (configUrl a)) as [e|].
  { intros [= <- <-]. split; [done|apply run_of_refl]. }
  unfold mbind, M_bind. destruct (os_Stat _ w) as [st w1] eqn:Hst.
  apply os_Stat_cases in Hst as (Hn & Hr & _).
  by destruct st; intros [= <- <-].
Qed.

Lemma checkin_unfold a client crypto w :
  checkin a client crypto w =
    let '(r, w0) := checkin_request a w in
    match r with
    | Err err => (Some err, w0)
    | Ok req =>
        match client req with
        | Err err =>
            (Some (Errorf ("Unable to get: " +:+ configUrl a +:+ " - " +:+ Error err)),
             w0)
        | Ok res => checkin_response a crypto res w0
        end
    end.
Proof.
  unfold checkin, mbind, M_bind.
  destruct (checkin_request a w) as [[req|e] w0]; [|done].
  by destruct (client req).
Qed.

(** C8. A response whose status is none of 200, 304 and 204 makes
    [checkin] return an error whose text has the status code and the body
    of the response; the files are as they were and nothing was added to
    the trace. *)
Theorem checkin_other_status a client crypto w req w0 res :
  checkin_request a w = (Ok req, w0) →
  client req = Ok res →
  StatusCode res ≠ 200 → StatusCode res ≠ 304 → StatusCode res ≠ 204 →
  ∃ w', checkin a client crypto w =
          (Some (Errorf ("Unable to get " +:+ configUrl a +:+ " - HTTP_"
                          +:+ pretty (StatusCode res) +:+ ": " +:+ Body res)), w')
    ∧ nodes w' = nodes w ∧ trace w' = trace w.
Proof.
  intros Hreq Hres H200 H304 H204. rewrite checkin_unfold, Hreq, Hres.
  apply checkin_request_run in Hreq as [Hn [Ht _]].
  unfold checkin_response.
  rewrite !(proj2 (Z.eqb_neq _ _)) by done.
  exists w0. split; [done|]. split; [done|]. by rewrite Ht, app_nil_r.
Qed.

(** With status 304 or 204, [checkin] returns [NotModifiedError], changes
    no file and leaves one log line. *)
Lemma checkin_not_modified a client crypto w req w0 res :
  checkin_request a w = (Ok req, w0) →
  client req = Ok res →
  StatusCode res = 304 ∨ StatusCode res = 204 →
  ∃ w' line, checkin a client crypto w = (Some NotModifiedError, w')
    ∧ nodes w' = nodes w ∧ trace w' = trace w ++ [EvLog line []].
Proof.
  intros Hreq Hres Hst. rewrite checkin_unfold, Hreq, Hres.
  apply checkin_request_run in Hreq as [Hn [Ht _]].
  unfold checkin_response.
  destruct Hst as [-> | ->]; simpl; do 2 eexists;
    (split; [done|]); (split; [done|]); simpl; by rewrite Ht, app_nil_r.
Qed.

Lemma checkin_200_unfold a crypto res body w :
  checkin_200 a crypto res body w =
    match UnmarshallBuffer (Some crypto) body true with
    | (_, Some err) => (Some err, w)
    | (nextc, None) =>
        let '(prevc, perr) := UnmarshallFile None (EncryptedConfig a) false w in
        match load_error perr with
        | Some err =>
            (Some err,
             set_trace (trace w ++ [EvLog "Unable to load previous config version: %s"
                                      [Error err]]) w)
        | None =>
            let '(err, w1) := extract a crypto (mkSnapshot prevc nextc) w in
            match err with
            | Some e => (Some e, w1)
            | None =>
                let '(err, w2) := safeWrite (EncryptedConfig a) body w1 in
                match err with
                | Some e => (Some e, w2)
                | None =>
                    let '(modtime, w3) :=
                      match time_Parse_RFC1123 (Header_Get (Header res) "Date") with
                      | Ok t => (t, w2)
                      | Err e =>
                          (clock w2,
                           set_trace
                             (trace w2 ++
                                [EvLog "Unable to get modtime of config file, defaulting to 'now': %s"
                                   [Error e]]) w2)
                      end in
                    let '(err, w4) := os_Chtimes (EncryptedConfig a) modtime w3 in
                    match err with
                    | Some e =>
                        (Some (Errorw ("Unable to set modified time "
                                        +:+ EncryptedConfig a +:+ " - " +:+ Error e) e),
                         w4)
                    | None => (None, w4)
                    end
                end
            end
        end
    end.
Proof.
  unfold checkin_200.
  destruct (UnmarshallBuffer _ _ _) as [nextc [e|]]; [done|].
  unfold mbind at 1, M_bind at 1, get_world.
  destruct (UnmarshallFile _ _ _ w) as [prevc perr]. simpl.
  destruct (load_error perr) as [e|]; [done|].
  unfold mbind at 1, M_bind at 1.
  destruct (extract _ _ _ w) as [[e|] w1]; [done|].
  unfold mbind at 1, M_bind at 1.
  destruct (safeWrite _ _ w1) as [[e|] w2]; [done|].
  unfold mbind at 1, M_bind at 1.
  destruct (time_Parse_RFC1123 _) as [t|e]; simpl.
  - unfold mbind, M_bind. by destruct (os_Chtimes _ _ w2) as [[e|] w4].
  - unfold mbind, M_bind, log_Printf, emit, time_Now. simpl.
    by destruct (os_Chtimes _ _ _) as [[e'|] w4].
Qed.

Lemma extract_run a crypto cfg w r w' :
  extract a crypto cfg w = (r, w') → ∃ ev, run_of w w' ev.
Proof.
  rewrite extract_unfold.
  destruct (os_Stat _ w) as [st w0] eqn:Hst.
  apply os_Stat_cases in Hst as (_ & Hr0 & _).
  destruct st as [fi|e]; [|intros [= <- <-]; by eexists].
  destruct (extract_update _ _ _ ∅ w0) as [[seen err] w1] eqn:Hup.
  apply extract_update_run in Hup as (upd & Hru & _).
  destruct err as [e|]; [intros [= <- <-]; eexists; run_chain|].
  rewrite extract_remove_prev. intros (rm & Hrr & _)%extract_remove_run.
  eexists. run_chain.
Qed.

(** In the 200 branch of [checkin], while the bundle file is none of the
    files that [extract] works on: if the body cannot be decoded, the
    previous bundle cannot be loaded or [extract] returns an error, then
    [checkin] returns an error and the bundle file is as it was. *)
Lemma checkin_200_failure_keeps_bundle a crypto res body w r w'
    nextc nerr prevc perr :
  checkin_200 a crypto res body w = (r, w') →
  UnmarshallBuffer (Some crypto) body true = (nextc, nerr) →
  UnmarshallFile None (EncryptedConfig a) false w = (prevc, perr) →
  outside Join (SecretsDir a) (mkSnapshot prevc nextc) (EncryptedConfig a) →
  nerr ≠ None ∨ load_error perr ≠ None
    ∨ (extract a crypto (mkSnapshot prevc nextc) w).1 ≠ None →
  r ≠ None ∧ nodes w' !! EncryptedConfig a = nodes w !! EncryptedConfig a.
Proof.
  rewrite checkin_200_unfold. intros Hrun Hbuf Hfile (Ho1 & Ho2 & Ho3) Hfail.
  rewrite Hbuf, Hfile in Hrun.
  destruct nerr as [e|]; [by injection Hrun as <- <-|].
  destruct (load_error perr) as [e|]; [by injection Hrun as <- <-|].
  destruct Hfail as [?|[?|Hfail]]; [done..|].
  destruct (extract _ _ _ w) as [re w1] eqn:Hex. simpl in Hfail.
  destruct re as [e|]; [|done]. injection Hrun as <- <-. split; [done|].
  eapply extract_frame; [done..|]. intros g Hg _. by apply Ho3.
Qed.

(** When the 200 branch of [checkin] returns no error, the modification
    time of the bundle file is the time parsed from the [Date] header, or
    the local time when the header does not parse. *)
Lemma checkin_200_mtime a crypto res body w w' :
  checkin_200 a crypto res body w = (None, w') →
  mtime_of w' (EncryptedConfig a) =
    Some match time_Parse_RFC1123 (Header_Get (Header res) "Date") with
         | Ok t => t
         | Err _ => clock w
         end.
Proof.
  rewrite checkin_200_unfold.
  destruct (UnmarshallBuffer _ _ _) as [nextc [e|]]; [done|].
  destruct (UnmarshallFile _ _ _ w) as [prevc perr].
  destruct (load_error perr) as [e|]; [done|].
  destruct (extract _ _ _ w) as [[e|] w1] eqn:Hex; [done|].
  apply extract_run in Hex as (ev1 & _ & _ & Hc1 & _).
  destruct (safeWrite _ _ w1) as [[e|] w2] eqn:Hsw; [done|].
  apply safeWrite_cases in Hsw as [(_ & _ & _ & _ & Hc2 & _)|(? & ? & [=] & _)].
  assert (∀ t w3, nodes w3 = nodes w2 →
            (let '(err, w4) := os_Chtimes (EncryptedConfig a) t w3 in
             match err with
             | Some e =>
                 (Some (Errorw ("Unable to set modified time "
                                 +:+ EncryptedConfig a +:+ " - " +:+ Error e) e), w4)
             | None => (None, w4)
             end) = (None, w') →
            mtime_of w' (EncryptedConfig a) = Some t) as Hset.
  { intros t w3 Hn3. destruct (os_Chtimes _ _ w3) as [[e|] w4] eqn:Hch; [done|].
    intros [= <-].
    apply os_Chtimes_cases in Hch as [(_ & (n & _ & Hn4) & _)|(? & [=] & _)].
    unfold mtime_of. rewrite Hn4, lookup_insert_eq. by destruct n. }
  destruct (time_Parse_RFC1123 _) as [t|e].
  - by apply Hset.
  - rewrite <-Hc1, <-Hc2. by apply Hset.
Qed.

End CheckIn.

(** ** Examples and counterexamples on concrete devices *)

Ltac by_computation :=
  lazymatch goal with
  | |- ?P => apply (bool_decide_unpack P); vm_compute; exact I
  end.

Lemma apart_Forall Join dir prevc nextc :
  Forall (λ g, g ∈ names nextc ∨ Join dir g ∉ secret_paths Join dir (entries nextc))
    (names prevc) →
  apart Join dir prevc nextc.
Proof.
  intros Hall g Hg Hn. eapply Forall_forall in Hall; [|done].
  by destruct Hall.
Qed.

(** Bundle-2 applied over bundle-1: "c.conf" is removed and its hook run,
    "a.conf" is rewritten, "b.conf" is created and its hook run. *)
Lemma extract_materializes_witness :
  ∃ ev, trace Demo.applied = trace Demo.world ++ ev
    ∧ nodes Demo.applied !! "/run/secrets/c.conf" = None
    ∧ List.filter (is_exec_for "c.conf") ev
        = [EvExec "c.conf" ["/bin/reload"; "c"] "/run/secrets/c.conf"]
    ∧ on_disk Demo.applied "/run/secrets/a.conf" = Some "secretA"
    ∧ List.filter (is_exec_for "a.conf") ev = []
    ∧ on_disk Demo.applied "/run/secrets/b.conf" = Some "secretB"
    ∧ List.filter (touches "/run/secrets/b.conf") ev
        = [EvRename "/run/secrets/b.conf.tmp" "/run/secrets/b.conf"]
    ∧ List.filter (is_exec_for "b.conf") ev
        = [EvExec "b.conf" ["/bin/true"] "/run/secrets/b.conf"].
Proof.
  destruct (extract_materializes Demo.Join unit Demo.app tt
              (mkSnapshot Demo.prev1 Demo.next2) Demo.world Demo.applied)
    as (ev & Htr & Hrm & Hnew & _).
  - unfold independent. by_computation.
  - apply apart_Forall. by_computation.
  - by_computation.
  - by vm_compute.
  - exists ev. split; [exact Htr|].
    destruct (Hrm "c.conf" Demo.secretC) as [Hc1 Hc2]; [by_computation..|].
    destruct (Hnew "a.conf" Demo.secretA) as (Ha1 & _ & _ & Ha2);
      [by_computation|by vm_compute|].
    destruct (Hnew "b.conf" Demo.secretB) as (Hb1 & Hb2 & _ & Hb3);
      [by_computation|by vm_compute|].
    repeat split; assumption.
Defined.

(** C1, as stated, fails on two devices.  On the first the bundle names
    "a.tmp" and "a": "a.tmp" is on disk with the value the bundle has for
    it, no call is refused and [extract] returns no error; yet its file is
    overwritten (with the content of "a", whose temporary file it is) and
    is gone in the end.  On the second the secret is on disk with the
    bundle's value but cannot be read: it is written again and its hook
    runs. *)
Lemma extract_rewrites_unchanged :
  (let w := mkWorld Demo.siblings_disk (octal 0 2 2) 500 [] [] in
   let run := extract Demo.Join unit Demo.app tt (mkSnapshot None Demo.siblings) w in
   run.1 = None ∧ quiet w
   ∧ ("a.tmp", Demo.sibling_tmp) ∈ entries Demo.siblings
   ∧ on_disk w "/run/secrets/a.tmp" = Some (Value Demo.sibling_tmp)
   ∧ EvWriteFile "/run/secrets/a.tmp" "Y" (octal 6 4 0) ∈ trace run.2
   ∧ on_disk run.2 "/run/secrets/a.tmp" = None)
  ∧ (let w := mkWorld Demo.disk (octal 0 2 2) 500 Demo.refuse_second [] in
     let bundle := Some [("c.conf", Demo.secretC)] in
     let run := extract Demo.Join unit Demo.app tt (mkSnapshot None bundle) w in
     run.1 = None
     ∧ on_disk w "/run/secrets/c.conf" = Some (Value Demo.secretC)
     ∧ trace run.2
         = [EvLog "Extracting %s" ["c.conf"];
            EvWriteFile "/run/secrets/c.conf.tmp" "secretC" (octal 6 4 0);
            EvRename "/run/secrets/c.conf.tmp" "/run/secrets/c.conf";
            EvExec "c.conf" ["/bin/reload"; "c"] "/run/secrets/c.conf"]).
Proof.
  split; cbv zeta; repeat split; try by vm_compute.
  all: by_computation.
Qed.

(** Bundle-2 applied twice: the second application changes nothing. *)
Lemma extract_twice_witness :
  ∃ ev,
    trace (extract Demo.Join unit Demo.app tt (mkSnapshot Demo.next2 Demo.next2)
             (set_trace [] Demo.applied)).2 = [] ++ ev
    ∧ Forall (λ e, mutates e = false ∧ is_exec e = false) ev
    ∧ nodes (extract Demo.Join unit Demo.app tt (mkSnapshot Demo.next2 Demo.next2)
               (set_trace [] Demo.applied)).2 = nodes Demo.applied.
Proof.
  apply (extract_twice Demo.Join unit Demo.app tt Demo.prev1 Demo.next2
           Demo.world Demo.applied (set_trace [] Demo.applied)
           (extract Demo.Join unit Demo.app tt (mkSnapshot Demo.next2 Demo.next2)
              (set_trace [] Demo.applied)).1).
  - unfold independent. by_computation.
  - apply apart_Forall. by_computation.
  - by vm_compute.
  - reflexivity.
  - unfold quiet. by_computation.
  - by destruct (extract _ _ _ _ _ _).
Defined.

(** C2, as stated, fails on the bundle that names "a.tmp" and "a": after
    it has been applied to an empty secrets directory without error,
    "a.tmp" is not on disk (it was renamed onto "a"), and the second
    application, with no call refused, writes it and runs its hook. *)
Lemma extract_twice_rewrites :
  (extract Demo.Join unit Demo.app tt (mkSnapshot None Demo.siblings)
     (mkWorld Demo.empty_disk (octal 0 2 2) 500 [] [])).1 = None
  ∧ quiet Demo.siblings_again
  ∧ (let again := extract Demo.Join unit Demo.app tt
                    (mkSnapshot Demo.siblings Demo.siblings) Demo.siblings_again in
     again.1 = None
     ∧ List.filter mutates (trace again.2)
         = [EvWriteFile "/run/secrets/a.tmp.tmp" "X" (octal 6 4 0);
            EvRename "/run/secrets/a.tmp.tmp" "/run/secrets/a.tmp"]
     ∧ List.filter is_exec (trace again.2)
         = [EvExec "a.tmp" ["/bin/true"] "/run/secrets/a.tmp"]).
Proof.
  split; [by vm_compute|]. split; [constructor|]. by vm_compute.
Qed.





Local Abbreviation demo_checkin :=
  (checkin Demo.Join Demo.url_error Demo.time_Format_RFC1123
     Demo.time_Parse_RFC1123 unit Demo.UnmarshallBuffer Demo.UnmarshallFile).
Local Abbreviation legacy_CheckIn :=
  (Legacy.CheckIn Demo.Join Demo.url_error Demo.time_Format_RFC1123 unit
     Demo.Unmarshall).

(** The server answers 500 with the body "server error". *)
Lemma checkin_other_status_witness :
  ∃ w', demo_checkin Demo.app (Demo.serves (Demo.response 500 "server error")) tt
          Demo.world
        = (Some (Errorf "Unable to get https://ota/config - HTTP_500: server error"),
           w')
    ∧ nodes w' = nodes Demo.world ∧ trace w' = trace Demo.world.
Proof.
  apply (checkin_other_status Demo.Join Demo.url_error Demo.time_Format_RFC1123
           Demo.time_Parse_RFC1123 unit Demo.UnmarshallBuffer Demo.UnmarshallFile
           Demo.app (Demo.serves (Demo.response 500 "server error")) tt Demo.world
           (mkRequest "GET" "https://ota/config" true
              (<["If-Modified-Since" := "50"]> ∅))
           Demo.world (Demo.response 500 "server error")).
  - by vm_compute.
  - reflexivity.
  - simpl. lia.
  - simpl. lia.
  - simpl. lia.
Defined.

(** The current [checkin] on the device that has bundle-1, served
    bundle-2 with a [Date] header: the secrets are brought up to date, then
    the bundle is persisted, with the date of the server. *)
Example checkin_200_example :
  let run := demo_checkin Demo.app (Demo.serves Demo.response_200) tt Demo.world in
  run.1 = None
  ∧ on_disk run.2 "/run/secrets/a.conf" = Some "secretA"
  ∧ on_disk run.2 "/run/secrets/b.conf" = Some "secretB"
  ∧ nodes run.2 !! "/run/secrets/c.conf" = None
  ∧ on_disk run.2 "/var/sota/config.encrypted" = Some "bundle-2"
  ∧ mtime_of run.2 "/var/sota/config.encrypted" = Some 100
  ∧ mode_of run.2 "/run/secrets/b.conf" = Some (octal 6 4 0).
Proof. by vm_compute. Qed.

(** ** The earlier revision against the specification *)

(** C4. The earlier [CheckIn], served a 200 response whose body is not a
    bundle, on a device that has bundle-1: it returns the error of
    [Extract], and the persisted bundle has already been replaced by the
    body.  (The current [checkin] keeps it: [checkin_200_failure_keeps_bundle].) *)
Theorem Legacy_CheckIn_persists_before_Extract :
  let run := legacy_CheckIn (Demo.legacy_app (Demo.response 200 "garbage"))
               Demo.world in
  run.1 = Returns (Some (Errorf "Unable to unmarshall"))
  ∧ on_disk Demo.world "/var/sota/config.encrypted" = Some "bundle-1"
  ∧ on_disk run.2 "/var/sota/config.encrypted" = Some "garbage".
Proof. by vm_compute. Qed.

(** C5. The earlier [CheckIn], served bundle-2 with a [Date] header that
    parses (to time 100) on a device whose clock shows 500: it returns no
    error and the persisted bundle has the local time, not the server's.
    (The current [checkin] sets the server's: [checkin_200_mtime].) *)
Theorem Legacy_CheckIn_ignores_Date :
  let run := legacy_CheckIn (Demo.legacy_app Demo.response_200) Demo.world in
  run.1 = Returns None
  ∧ Demo.time_Parse_RFC1123 (Header_Get (Header Demo.response_200) "Date") = Ok 100
  ∧ clock Demo.world = 500
  ∧ mtime_of run.2 "/var/sota/config.encrypted" = Some 500.
Proof. by vm_compute. Qed.

(** C7. The earlier [CheckIn] returns [NotModifiedError] for status 304,
    but for status 204 an error made from the status code.  (The current
    [checkin] returns [NotModifiedError] for both: [checkin_not_modified].) *)
Theorem Legacy_CheckIn_204_is_an_error :
  (legacy_CheckIn (Demo.legacy_app (Demo.response 304 "")) Demo.world).1
    = Returns (Some NotModifiedError)
  ∧ (legacy_CheckIn (Demo.legacy_app (Demo.response 204 "")) Demo.world).1
      = Returns (Some (Errorf "Unable to get https://ota/config - HTTP_204: "))
  ∧ Errorf "Unable to get https://ota/config - HTTP_204: " ≠ NotModifiedError.
Proof. by vm_compute. Qed.

(** C9. The earlier revision creates the secret file "b.conf" (and the
    temporary file that becomes the persisted bundle) with mode 0644, which
    lets every user read it.  (The current [safeWrite] creates files with
    0640: [safeWrite_creates_0640].) *)
Theorem Legacy_Extract_mode_0644 :
  let run := legacy_CheckIn (Demo.legacy_app Demo.response_200) Demo.world in
  run.1 = Returns None
  ∧ nodes Demo.world !! "/run/secrets/b.conf" = None
  ∧ mode_of run.2 "/run/secrets/b.conf" = Some (octal 6 4 4)
  ∧ mode_of run.2 "/var/sota/config.encrypted" = Some (octal 6 4 4)
  ∧ Z.land (octal 6 4 4) (octal 0 0 7) = octal 0 0 4.
Proof. by vm_compute. Qed.

(** * Further properties of the code *)

(** ** [idToBytes] on every identifier *)

Lemma first_nonzero_Exists ds :
  Exists (λ d, d ≠ 0) ds → ∃ k, first_nonzero ds = Some k.
Proof.
  induction 1 as [d rest Hd|d rest _ [k IH]]; simpl.
  - destruct (Z.eqb_spec d 0); [done|eauto].
  - rewrite IH. destruct (d =? 0); simpl; eauto.
Qed.

Lemma strip_leading_zeros_head ds :
  Exists (λ d, d ≠ 0) ds →
  ∃ d rest, strip_leading_zeros ds = d :: rest ∧ d ≠ 0.
Proof.
  induction 1 as [d rest Hd|d rest _ IH]; simpl.
  - destruct (Z.eqb_spec d 0); [done|eauto].
  - destruct (Z.eqb_spec d 0); [done|eauto].
Qed.

(** X1. An identifier with a byte other than ['0'] decodes to its byte
    values less ['0'], without the leading zeros: the result starts with
    a value that is not zero. *)
Theorem idToBytes_strips_leading_zeros id :
  Exists (λ d, d ≠ 0) (digits id) →
  idToBytes id = Returns (strip_leading_zeros (digits id))
  ∧ ∃ d rest, strip_leading_zeros (digits id) = d :: rest ∧ d ≠ 0.
Proof.
  intros Hnz. split; [|by apply strip_leading_zeros_head].
  rewrite idToBytes_spec. by destruct (first_nonzero_Exists _ Hnz) as [k ->].
Qed.

Lemma idToBytes_strips_leading_zeros_witness :
  idToBytes "0120" = Returns (strip_leading_zeros (digits "0120"))
  ∧ ∃ d rest, strip_leading_zeros (digits "0120") = d :: rest ∧ d ≠ 0.
Proof.
  apply (idToBytes_strips_leading_zeros "0120").
  apply Exists_cons_tl, Exists_cons_hd. by vm_compute.
Defined.

(** The empty identifier has no byte at all: it panics like "00". *)
Lemma idToBytes_zeros_panic_witness :
  idToBytes "" = Panics "slice bounds out of range".
Proof. apply (idToBytes_zeros_panic ""). constructor. Defined.

(** ** [sota.toml] *)

Lemma tomlGet_cases tree key :
  match tree !! key with
  | Some (TomlString val) =>
      if (String.length val =? 0)%nat
      then tomlGet tree key
           = (["ERROR: Missing " +:+ key +:+ " in sota.toml"], Exited 1)
      else tomlGet tree key = ([], Returned val)
  | Some TomlOther =>
      tomlGet tree key
      = ([], Panicked "interface conversion: interface {} is not string")
  | None =>
      tomlGet tree key = (["ERROR: Missing " +:+ key +:+ " in sota.toml"], Exited 1)
  end.
Proof.
  unfold tomlGet, GetDefault.
  destruct (tree !! key) as [[val|]|]; simpl; [|done..].
  by destruct (String.length val =? 0)%nat.
Qed.

(** X2. [tomlGet] gives the value of a key only when it is there as a
    string that is not empty; a key that is missing, or empty, makes the
    program exit with status 1 after the line that names the key. *)
Theorem tomlGet_returns_iff tree key val :
  (tomlGet tree key = ([], Returned val)
   ↔ tree !! key = Some (TomlString val) ∧ val ≠ "")
  ∧ (tree !! key = None ∨ tree !! key = Some (TomlString "") →
     tomlGet tree key = (["ERROR: Missing " +:+ key +:+ " in sota.toml"], Exited 1)).
Proof.
  pose proof (tomlGet_cases tree key) as Hc. split; [split|].
  - intros Hget. destruct (tree !! key) as [[v|]|]; [|congruence..].
    destruct v as [|c v]; simpl in Hc; [congruence|].
    rewrite Hc in Hget. by injection Hget as <-.
  - intros [Hk Hne]. rewrite Hk in Hc. by destruct val.
  - intros [Hk|Hk]; by rewrite Hk in Hc.
Qed.

(** X3. [tomlAssertVal] never stops the program over a value that is not
    allowed: it ends as [tomlGet] ends, with the same value, and only
    prints one more line. *)
Theorem tomlAssertVal_never_rejects tree key allowed :
  (tomlAssertVal tree key allowed).2 = (tomlGet tree key).2
  ∧ ∀ val, (tomlGet tree key).2 = Returned val → val ∉ allowed →
      tomlAssertVal tree key allowed
      = ((tomlGet tree key).1
           ++ ["ERROR: Invalid value " +:+ val +:+ " in sota.toml for " +:+ key],
         Returned val).
Proof.
  unfold tomlAssertVal, mbind, P_bind.
  destruct (tomlGet tree key) as [out [val| |]]; simpl; [|done..].
  case_bool_decide; simpl; split; try done.
  - intros ? [= <-] ?. done.
  - intros ? [= <-] _. done.
Qed.

Section CreateClientProps.

Variable ClientPair : Type.
Variable createClientLocal : gmap string toml_value → P ClientPair.
Variable createClientPkcs11 : gmap string toml_value → P ClientPair.

Local Abbreviation createClient :=
  (createClient ClientPair createClientLocal createClientPkcs11).

Lemma tomlAssertVal_present tree key allowed val :
  tree !! key = Some (TomlString val) → val ≠ "" →
  ∃ out, tomlAssertVal tree key allowed = (out, Returned val).
Proof.
  intros Hk Hne. unfold tomlAssertVal, mbind, P_bind.
  pose proof (tomlGet_cases tree key) as Hc. rewrite Hk in Hc.
  destruct val as [|c v]; [done|]. simpl in Hc. rewrite Hc.
  case_bool_decide; simpl; eauto.
Qed.

Lemma tomlAssertVal_missing tree key allowed :
  tree !! key = None →
  tomlAssertVal tree key allowed
  = (["ERROR: Missing " +:+ key +:+ " in sota.toml"], Exited 1).
Proof.
  intros Hk. unfold tomlAssertVal, mbind, P_bind.
  pose proof (tomlGet_cases tree key) as Hc. rewrite Hk in Hc. by rewrite Hc.
Qed.

(** X4. With the three sources set, [createClient] makes the client from
    files when the key source is "file", and from the PKCS#11 token for
    every other key source, also one that is neither "file" nor "pkcs11":
    the program goes on as the chosen constructor does. *)
Theorem createClient_backend sota ca source cert :
  sota !! "tls.ca_source" = Some (TomlString ca) → ca ≠ "" →
  sota !! "tls.pkey_source" = Some (TomlString source) → source ≠ "" →
  sota !! "tls.cert_source" = Some (TomlString cert) → cert ≠ "" →
  (createClient sota).2 =
    (if bool_decide (source = "file") then createClientLocal sota
     else createClientPkcs11 sota).2.
Proof.
  intros Hca ? Hsrc ? Hcert ?. unfold createClient, mbind, P_bind.
  destruct (tomlAssertVal_present sota "tls.ca_source" ["file"] ca) as [o1 ->];
    [done..|].
  destruct (tomlAssertVal_present sota "tls.pkey_source" ["file"; "pkcs11"] source)
    as [o2 ->]; [done..|].
  destruct (tomlAssertVal_present sota "tls.cert_source" [source] cert) as [o3 ->];
    [done..|].
  case_bool_decide;
    [destruct (createClientLocal sota) as [o4 r]
    |destruct (createClientPkcs11 sota) as [o4 r]]; done.
Qed.

(** X5. Without a key source in [sota.toml], [createClient] makes no
    client: the program exits with status 1, whatever the constructors
    would do. *)
Theorem createClient_missing_source_exits sota ca :
  sota !! "tls.ca_source" = Some (TomlString ca) → ca ≠ "" →
  sota !! "tls.pkey_source" = None →
  (createClient sota).2 = Exited 1
  ∧ "ERROR: Missing tls.pkey_source in sota.toml" ∈ (createClient sota).1.
Proof.
  intros Hca ? Hsrc. unfold createClient, mbind, P_bind.
  destruct (tomlAssertVal_present sota "tls.ca_source" ["file"] ca) as [o1 ->];
    [done..|].
  rewrite (tomlAssertVal_missing sota "tls.pkey_source") by done.
  simpl. split; [done|]. set_solver.
Qed.

End CreateClientProps.

Lemma createClient_backend_witness :
  (createClient string Demo2.local_client Demo2.pkcs11_client Demo2.sota).2
  = Returned "pkcs11".
Proof.
  exact (createClient_backend string Demo2.local_client Demo2.pkcs11_client
           Demo2.sota "file" "hsm" "file" eq_refl ltac:(done) eq_refl ltac:(done)
           eq_refl ltac:(done)).
Defined.

Lemma createClient_missing_source_exits_witness :
  (createClient string Demo2.local_client Demo2.pkcs11_client
     (<["tls.ca_source" := TomlString "file"]> ∅)).2 = Exited 1
  ∧ "ERROR: Missing tls.pkey_source in sota.toml"
      ∈ (createClient string Demo2.local_client Demo2.pkcs11_client
           (<["tls.ca_source" := TomlString "file"]> ∅)).1.
Proof.
  apply (createClient_missing_source_exits string Demo2.local_client
           Demo2.pkcs11_client (<["tls.ca_source" := TomlString "file"]> ∅) "file");
    done.
Defined.

(** ** The init functions *)

Section InitProps.

Variable CryptoHandler : Type.

Local Abbreviation callInitFunctions := (callInitFunctions CryptoHandler).

Lemma callInitFunctions_cons a client crypto name cb rest w :
  callInitFunctions a client crypto ((name, cb) :: rest) w =
    let w0 := set_trace (trace w ++ [EvLog "Running %s initialization" [name]]) w in
    let '(err, w1) := cb a client crypto w0 in
    match err with
    | Some e =>
        let w2 := set_trace (trace w1 ++ [EvLog "ERROR: %v" [Error e]]) w1 in
        let '(kept, w3) := callInitFunctions a client crypto rest w2 in
        ((name, cb) :: kept, w3)
    | None => callInitFunctions a client crypto rest w1
    end.
Proof.
  simpl. unfold mbind, M_bind, log_Printf, emit, ret, mret, M_ret. simpl.
  destruct (cb a client crypto _) as [[e|] w1]; [|done].
  by destruct (callInitFunctions a client crypto rest _).
Qed.

(** X6. [callInitFunctions] only ever deletes from the registry: what is
    left is a sublist of what was there, in the same order. *)
Theorem callInitFunctions_sublist a client crypto registry w :
  (callInitFunctions a client crypto registry w).1 `sublist_of` registry.
Proof.
  revert w. induction registry as [|[name cb] rest IH]; intros w; [done|].
  rewrite callInitFunctions_cons. simpl.
  destruct (cb a client crypto _) as [[e|] w1].
  - specialize (IH (set_trace (trace w1 ++ [EvLog "ERROR: %v" [Error e]]) w1)).
    destruct (callInitFunctions a client crypto rest _) as [kept w3].
    by apply sublist_skip.
  - by apply sublist_cons.
Qed.

(** The loop over a registry in two parts is the loop over the first,
    then the loop over the second. *)
Lemma callInitFunctions_app a client crypto l1 l2 : ∀ w,
  callInitFunctions a client crypto (l1 ++ l2) w =
    let '(kept1, w1) := callInitFunctions a client crypto l1 w in
    let '(kept2, w2) := callInitFunctions a client crypto l2 w1 in
    (kept1 ++ kept2, w2).
Proof.
  induction l1 as [|[name cb] rest IH]; intros w.
  - simpl. unfold ret, mret, M_ret.
    by destruct (callInitFunctions a client crypto l2 w).
  - rewrite <-app_comm_cons, !callInitFunctions_cons. simpl.
    destruct (cb a client crypto _) as [[e|] w1]; [|apply IH].
    rewrite IH.
    destruct (callInitFunctions a client crypto rest _) as [kept1 w2].
    by destruct (callInitFunctions a client crypto l2 w2).
Qed.

(** What is left of the registry was in it. *)
Lemma callInitFunctions_kept a client crypto registry : ∀ w entry,
  entry ∈ (callInitFunctions a client crypto registry w).1 → entry ∈ registry.
Proof.
  induction registry as [|[name cb] rest IH]; intros w entry.
  - simpl. by unfold ret, mret, M_ret.
  - rewrite callInitFunctions_cons. simpl.
    destruct (cb a client crypto _) as [[e|] w1].
    + specialize (IH (set_trace (trace w1 ++ [EvLog "ERROR: %v" [Error e]]) w1) entry).
      destruct (callInitFunctions a client crypto rest _) as [kept w3].
      simpl in *. set_solver.
    + intros H. apply elem_of_cons. right. by eapply IH.
Qed.

(** X7. An init function that returns an error when the loop calls it
    stays registered, at its place among those that are left; it is called
    once, its error is logged, and the loop goes on with the functions
    after it. *)
Theorem callInitFunctions_keeps_failing a client crypto pre name cb post w e :
  (init_call CryptoHandler a client crypto pre name cb w).1 = Some e →
  callInitFunctions a client crypto (pre ++ (name, cb) :: post) w =
    let rest :=
      callInitFunctions a client crypto post
        (log_Printf "ERROR: %v" [Error e]
           (init_call CryptoHandler a client crypto pre name cb w).2).2 in
    ((callInitFunctions a client crypto pre w).1 ++ (name, cb) :: rest.1, rest.2).
Proof.
  unfold init_call. intros Hcall.
  rewrite callInitFunctions_app.
  destruct (callInitFunctions a client crypto pre w) as [kept1 w1].
  cbv beta iota. rewrite callInitFunctions_cons.
  unfold log_Printf, emit in *. simpl in *.
  destruct (cb a client crypto _) as [err w2]. simpl in *. subst err.
  by destruct (callInitFunctions a client crypto post _).
Qed.

(** X8. An init function that returns no error when the loop calls it is
    called once and deleted: the loop goes on with the functions after it
    in the world that this one call left, and the name is not in the
    registry afterwards (a registry has a name once). *)
Theorem callInitFunctions_deletes_succeeded a client crypto pre name cb post w :
  (init_call CryptoHandler a client crypto pre name cb w).1 = None →
  callInitFunctions a client crypto (pre ++ (name, cb) :: post) w =
    (let rest :=
       callInitFunctions a client crypto post
         (init_call CryptoHandler a client crypto pre name cb w).2 in
     ((callInitFunctions a client crypto pre w).1 ++ rest.1, rest.2))
  ∧ (NoDup (pre ++ (name, cb) :: post).*1 →
     name ∉ (callInitFunctions a client crypto (pre ++ (name, cb) :: post) w).1.*1).
Proof.
  unfold init_call. intros Hcall.
  assert (callInitFunctions a client crypto (pre ++ (name, cb) :: post) w =
            (let rest :=
               callInitFunctions a client crypto post
                 (cb a client crypto
                    (log_Printf "Running %s initialization" [name]
                       (callInitFunctions a client crypto pre w).2).2).2 in
             ((callInitFunctions a client crypto pre w).1 ++ rest.1, rest.2)))
    as Heq.
  { rewrite callInitFunctions_app.
    destruct (callInitFunctions a client crypto pre w) as [kept1 w1].
    cbv beta iota. rewrite callInitFunctions_cons.
    unfold log_Printf, emit in *. simpl in *.
    destruct (cb a client crypto _) as [err w2]. simpl in *. subst err.
    by destruct (callInitFunctions a client crypto post _). }
  split; [exact Heq|].
  rewrite Heq. simpl. rewrite fmap_app, fmap_cons. simpl.
  intros Hnd. apply NoDup_app in Hnd as (_ & Hpre & Hpost).
  apply NoDup_cons in Hpost as [Hpost _].
  rewrite fmap_app. intros [Hin|Hin]%elem_of_app.
  - apply list_elem_of_fmap in Hin as (entry & -> & Hin).
    apply callInitFunctions_kept in Hin.
    apply (Hpre entry.1); [by apply list_elem_of_fmap_2|set_solver].
  - apply list_elem_of_fmap in Hin as (entry & -> & Hin).
    apply callInitFunctions_kept in Hin.
    apply Hpost. by apply list_elem_of_fmap_2.
Qed.

End InitProps.

(** On a device where the write is refused, "enrol" fails: it stays
    registered, before "broken", which is called all the same. *)
Lemma callInitFunctions_keeps_failing_witness :
  callInitFunctions unit Demo.app (Demo.serves Demo.response_200) tt
    ([] ++ ("enrol", Demo2.enrol) :: [("broken", Demo2.broken)])
    Demo2.read_only_world =
    let rest :=
      callInitFunctions unit Demo.app (Demo.serves Demo.response_200) tt
        [("broken", Demo2.broken)]
        (log_Printf "ERROR: %v"
           [Error (PathError "open" "/var/sota/enrolled" EACCES)]
           (init_call unit Demo.app (Demo.serves Demo.response_200) tt []
              "enrol" Demo2.enrol Demo2.read_only_world).2).2 in
    ((callInitFunctions unit Demo.app (Demo.serves Demo.response_200) tt []
        Demo2.read_only_world).1 ++ ("enrol", Demo2.enrol) :: rest.1, rest.2).
Proof.
  apply (callInitFunctions_keeps_failing unit Demo.app
           (Demo.serves Demo.response_200) tt [] "enrol" Demo2.enrol
           [("broken", Demo2.broken)] Demo2.read_only_world
           (PathError "open" "/var/sota/enrolled" EACCES)).
  by vm_compute.
Defined.

(** On a device where no call is refused, "enrol", called after "broken",
    succeeds: it is deleted, and "broken" is all that is left. *)
Lemma callInitFunctions_deletes_succeeded_witness :
  callInitFunctions unit Demo.app (Demo.serves Demo.response_200) tt
    ([("broken", Demo2.broken)] ++ ("enrol", Demo2.enrol) :: []) Demo.world =
    (let rest :=
       callInitFunctions unit Demo.app (Demo.serves Demo.response_200) tt []
         (init_call unit Demo.app (Demo.serves Demo.response_200) tt
            [("broken", Demo2.broken)] "enrol" Demo2.enrol Demo.world).2 in
     ((callInitFunctions unit Demo.app (Demo.serves Demo.response_200) tt
         [("broken", Demo2.broken)] Demo.world).1 ++ rest.1, rest.2))
  ∧ "enrol" ∉ (callInitFunctions unit Demo.app (Demo.serves Demo.response_200) tt
                 ([("broken", Demo2.broken)] ++ ("enrol", Demo2.enrol) :: [])
                 Demo.world).1.*1.
Proof.
  destruct (callInitFunctions_deletes_succeeded unit Demo.app
              (Demo.serves Demo.response_200) tt [("broken", Demo2.broken)]
              "enrol" Demo2.enrol [] Demo.world) as [Heq Hgone].
  - by vm_compute.
  - split; [exact Heq|]. apply Hgone. by_computation.
Defined.

(** ** [safeWrite] and [updateSecret]: the target file *)

(** X9. A [safeWrite] that returns an error has left the target file as
    it was: the new content reaches the target by the rename alone. *)
Theorem safeWrite_failure_keeps_target p data w e w' :
  safeWrite p data w = (Some e, w') → nodes w' !! p = nodes w !! p.
Proof.
  intros [([=] & _)|(e' & ev & _ & _ & _ & Hfr)]%safeWrite_cases.
  apply Hfr. intros Heq. by apply (tmp_of_neq p).
Qed.

Lemma safeWrite_failure_keeps_target_witness :
  nodes (safeWrite "/run/secrets/a.conf" "secretA"
           (mkWorld Demo.disk (octal 0 2 2) 500 Demo.refuse_second [])).2
    !! "/run/secrets/a.conf"
  = nodes (mkWorld Demo.disk (octal 0 2 2) 500 Demo.refuse_second [])
      !! "/run/secrets/a.conf".
Proof.
  apply (safeWrite_failure_keeps_target "/run/secrets/a.conf" "secretA"
           (mkWorld Demo.disk (octal 0 2 2) 500 Demo.refuse_second [])
           (Errorw "Unable to update secret: /run/secrets/a.conf - rename /run/secrets/a.conf.tmp /run/secrets/a.conf: input/output error"
              (LinkError "rename" "/run/secrets/a.conf.tmp" "/run/secrets/a.conf" EIO))).
  by vm_compute.
Defined.

(** X10. [safeWrite] changes nothing but the target and its temporary
    file, whatever it returns. *)
Theorem safeWrite_frame p data w r w' q :
  safeWrite p data w = (r, w') → q ≠ p → q ≠ tmp_of p →
  nodes w' !! q = nodes w !! q.
Proof.
  intros [(_ & Hn & _)|(e' & ev & _ & _ & _ & Hfr)]%safeWrite_cases Hp Ht.
  - by rewrite Hn, lookup_insert_ne, lookup_delete_ne.
  - by apply Hfr.
Qed.

Lemma safeWrite_frame_witness :
  nodes (safeWrite "/run/secrets/a.conf" "secretA" Demo.world).2
    !! "/run/secrets/c.conf"
  = nodes Demo.world !! "/run/secrets/c.conf".
Proof.
  apply (safeWrite_frame "/run/secrets/a.conf" "secretA" Demo.world
           (safeWrite "/run/secrets/a.conf" "secretA" Demo.world).1).
  - by destruct (safeWrite _ _ _).
  - done.
  - done.
Defined.

(** X11. When the temporary file is already there (left by an earlier
    run), [ioutil.WriteFile] truncates it and keeps its mode: the secret
    that [safeWrite] puts in place has that mode, not 0640. *)
Theorem safeWrite_inherits_stale_mode p data w w' stale mode mtime :
  safeWrite p data w = (None, w') →
  nodes w !! tmp_of p = Some (File stale mode mtime) →
  nodes w' !! p = Some (File data mode (clock w)).
Proof.
  intros [(_ & Hn & _)|(e' & ev & [=] & _)]%safeWrite_cases Hstale.
  rewrite Hn, lookup_insert_eq. unfold written. by rewrite Hstale.
Qed.

Lemma safeWrite_inherits_stale_mode_witness :
  nodes (safeWrite "/var/sota/config.encrypted" "bundle-2" Demo2.stale_world).2
    !! "/var/sota/config.encrypted"
  = Some (File "bundle-2" (octal 6 6 6) (clock Demo2.stale_world)).
Proof.
  apply (safeWrite_inherits_stale_mode "/var/sota/config.encrypted" "bundle-2"
           Demo2.stale_world
           (safeWrite "/var/sota/config.encrypted" "bundle-2" Demo2.stale_world).2
           "0123456789abcdef" (octal 6 6 6) 40).
  - by vm_compute.
  - by vm_compute.
Defined.

(** X12. After an [updateSecret] that returns no error the file holds the
    new content; when it reports no change, it has changed no file and
    left nothing in the trace. *)
Theorem updateSecret_ok_holds p v w changed w' :
  updateSecret p v w = ((changed, None), w') →
  on_disk w' p = Some v
  ∧ (changed = false → nodes w' = nodes w ∧ trace w' = trace w).
Proof.
  intros [(-> & _ & Hsame & Hn & Ht & _)
         |(-> & _ & [(_ & Hn & _)|(e & ev & [=] & _)])]%updateSecret_cases.
  - rewrite (on_disk_ext w' w) by by rewrite Hn. split; [done|].
    intros _. split; [done|]. by rewrite Ht, app_nil_r.
  - split; [|done]. unfold on_disk. rewrite Hn, lookup_insert_eq.
    by destruct (written_content w (tmp_of p) v (octal 6 4 0)) as [? ->].
Qed.

Lemma updateSecret_ok_holds_witness :
  on_disk (updateSecret "/run/secrets/a.conf" "old" Demo.world).2
    "/run/secrets/a.conf" = Some "old"
  ∧ (false = false →
     nodes (updateSecret "/run/secrets/a.conf" "old" Demo.world).2 = nodes Demo.world
     ∧ trace (updateSecret "/run/secrets/a.conf" "old" Demo.world).2
       = trace Demo.world).
Proof.
  apply (updateSecret_ok_holds "/run/secrets/a.conf" "old" Demo.world false).
  by vm_compute.
Defined.

(** X13. An [updateSecret] that returns an error reports a change all the
    same, and has left the target file as it was. *)
Theorem updateSecret_error_keeps_target p v w changed e w' :
  updateSecret p v w = ((changed, Some e), w') →
  changed = true ∧ nodes w' !! p = nodes w !! p.
Proof.
  intros [(_ & [=] & _)
         |(-> & _ & [([=] & _)|(e' & ev & _ & _ & _ & Hfr)])]%updateSecret_cases.
  split; [done|]. apply Hfr. intros Heq. by apply (tmp_of_neq p).
Qed.

Lemma updateSecret_error_keeps_target_witness :
  true = true
  ∧ nodes (updateSecret "/run/secrets/a.conf" "secretA"
             (mkWorld Demo.disk (octal 0 2 2) 500 Demo.refuse_second [])).2
      !! "/run/secrets/a.conf"
    = nodes (mkWorld Demo.disk (octal 0 2 2) 500 Demo.refuse_second [])
        !! "/run/secrets/a.conf".
Proof.
  apply (updateSecret_error_keeps_target "/run/secrets/a.conf" "secretA"
           (mkWorld Demo.disk (octal 0 2 2) 500 Demo.refuse_second []) true
           (Errorw "Unable to create /run/secrets/a.conf.tmp: open /run/secrets/a.conf.tmp: input/output error"
              (PathError "open" "/run/secrets/a.conf.tmp" EIO))).
  by vm_compute.
Defined.

(** ** [extract] and [Extract] *)

Section ExtractMore.

Variable Join : string → string → string.
Variable CryptoHandler : Type.
Variable UnmarshallFile :
  option CryptoHandler → string → bool → World → ConfigStruct * option error.

Local Abbreviation secret_paths := (secret_paths Join).
Local Abbreviation tmp_paths := (tmp_paths Join).
Local Abbreviation extract := (extract Join CryptoHandler).
Local Abbreviation Extract := (Extract Join CryptoHandler UnmarshallFile).

(** X14. Without the secrets directory [extract] does nothing: it returns
    an error, and neither the files nor the trace have changed. *)
Theorem extract_missing_dir a crypto cfg w :
  nodes w !! SecretsDir a = None →
  ∃ e w', extract a crypto cfg w = (Some e, w')
    ∧ nodes w' = nodes w ∧ trace w' = trace w.
Proof.
  intros Hdir. rewrite extract_unfold.
  destruct (os_Stat (SecretsDir a) w) as [st w0] eqn:Hst.
  apply os_Stat_cases in Hst as (Hn & [Ht _] & Hok & _).
  destruct st as [fi|e].
  { specialize (Hok fi eq_refl). by rewrite Hdir in Hok. }
  exists e, w0. split; [done|]. split; [done|]. by rewrite Ht, app_nil_r.
Qed.

(** X15. Whatever [extract] returns, a path that is neither the secret
    file nor the temporary file of an entry of [next], nor the file of a
    name of [prev], is as it was. *)
Theorem extract_outside_untouched a crypto cfg w r w' q :
  outside Join (SecretsDir a) cfg q →
  extract a crypto cfg w = (r, w') →
  nodes w' !! q = nodes w !! q.
Proof.
  intros (Ho1 & Ho2 & Ho3) Hrun.
  eapply extract_frame; [done..|]. intros g Hg _. by apply Ho3.
Qed.

(** X16. After an [extract] that returns no error, every entry of [next]
    is on disk with its value (the entries having files of their own, and
    no removed file being in their way). *)
Theorem extract_success_on_disk a crypto cfg w w' f c :
  independent Join (SecretsDir a) (next cfg) →
  apart Join (SecretsDir a) (prev cfg) (next cfg) →
  extract a crypto cfg w = (None, w') →
  (f, c) ∈ entries (next cfg) →
  on_disk w' (Join (SecretsDir a) f) = Some (Value c).
Proof. intros Hind Hapart Hrun. by eapply extract_on_disk. Qed.

(** X17. [Extract] applies the persisted bundle with no previous one: it
    leaves alone every path that is not the secret file or the temporary
    file of an entry of the bundle (a secret of an entry that the bundle
    no longer has stays on disk), and a run without error removes
    nothing. *)
Theorem Extract_removes_nothing a crypto w r w' :
  Extract a crypto w = (r, w') →
  (∀ q,
     q ∉ secret_paths (SecretsDir a)
           (entries (UnmarshallFile (Some crypto) (EncryptedConfig a) true w).1) →
     q ∉ tmp_paths (SecretsDir a)
           (entries (UnmarshallFile (Some crypto) (EncryptedConfig a) true w).1) →
     nodes w' !! q = nodes w !! q)
  ∧ (r = None →
     ∃ ev, trace w' = trace w ++ ev ∧ Forall (λ e, is_removal e = false) ev).
Proof.
  unfold Extract, mbind, M_bind, get_world.
  destruct (UnmarshallFile _ _ _ w) as [config [e|]]; simpl.
  { intros [= <- <-]. split; [done|]. intros [=]. }
  intros Hrun. split.
  - intros q Hq1 Hq2. eapply (extract_frame Join); [done..|].
    intros g Hg. by apply elem_of_nil in Hg.
  - intros ->. rewrite extract_unfold in Hrun.
    destruct (os_Stat (SecretsDir a) w) as [[fi|e] w0] eqn:Hst; [|done].
    apply os_Stat_cases in Hst as (_ & Hr0 & _).
    destruct (extract_update Join _ _ ∅ w0) as [[seen [e|]] w1] eqn:Hup; [done|].
    simpl in Hrun. injection Hrun as <-.
    apply extract_update_complete in Hup as (ev & Hr & Hnorm & _).
    exists ([] ++ ev). split; [|done].
    assert (run_of w w1 ([] ++ ev)) as [-> _] by run_chain. done.
Qed.

End ExtractMore.

Lemma extract_missing_dir_witness :
  ∃ e w',
    extract Demo.Join unit Demo.app tt (mkSnapshot Demo.prev1 Demo.next2)
      (mkWorld ∅ (octal 0 2 2) 500 [] []) = (Some e, w')
    ∧ nodes w' = ∅ ∧ trace w' = [].
Proof.
  apply (extract_missing_dir Demo.Join unit Demo.app tt
           (mkSnapshot Demo.prev1 Demo.next2) (mkWorld ∅ (octal 0 2 2) 500 [] [])).
  done.
Defined.

Lemma extract_outside_untouched_witness :
  nodes Demo.applied !! "/var/sota/config.encrypted"
  = nodes Demo.world !! "/var/sota/config.encrypted".
Proof.
  apply (extract_outside_untouched Demo.Join unit Demo.app tt
           (mkSnapshot Demo.prev1 Demo.next2) Demo.world
           (extract Demo.Join unit Demo.app tt
              (mkSnapshot Demo.prev1 Demo.next2) Demo.world).1).
  - split; [by_computation|]. split; [by_computation|].
    intros g Hg. revert g Hg. apply Forall_forall. by_computation.
  - unfold Demo.applied. by destruct (extract _ _ _ _ _ _).
Defined.

Lemma extract_success_on_disk_witness :
  on_disk Demo.applied (Demo.Join "/run/secrets" "b.conf") = Some "secretB".
Proof.
  apply (extract_success_on_disk Demo.Join unit Demo.app tt
           (mkSnapshot Demo.prev1 Demo.next2) Demo.world Demo.applied
           "b.conf" Demo.secretB).
  - unfold independent. by_computation.
  - apply apart_Forall. by_computation.
  - by vm_compute.
  - by_computation.
Defined.

(** The run of the examples writes the temporary file of "b.conf". *)
Lemma extract_writes_0640_witness :
  EvWriteFile "/run/secrets/b.conf.tmp" "secretB" (octal 6 4 0) ∈ trace Demo.applied
  ∧ octal 6 4 0 = octal 6 4 0.
Proof.
  split; [by_computation|].
  apply (extract_writes_0640 Demo.Join unit Demo.app tt
           (mkSnapshot Demo.prev1 Demo.next2) Demo.world None Demo.applied
           (trace Demo.applied) "/run/secrets/b.conf.tmp" "secretB" (octal 6 4 0)).
  - by vm_compute.
  - done.
  - by_computation.
Defined.

(** The device that has bundle-1, where [Extract] is run: the secret
    "c.conf" stays, "a.conf" is written as the bundle has it. *)
Lemma Extract_removes_nothing_witness :
  (∀ q,
     q ∉ secret_paths Demo.Join "/run/secrets" (entries Demo.prev1) →
     q ∉ tmp_paths Demo.Join "/run/secrets" (entries Demo.prev1) →
     nodes (Extract Demo.Join unit Demo.UnmarshallFile Demo.app tt Demo.world).2 !! q
     = nodes Demo.world !! q)
  ∧ (@None error = None →
     ∃ ev, trace (Extract Demo.Join unit Demo.UnmarshallFile Demo.app tt
                    Demo.world).2 = trace Demo.world ++ ev
           ∧ Forall (λ e, is_removal e = false) ev).
Proof.
  apply (Extract_removes_nothing Demo.Join unit Demo.UnmarshallFile Demo.app tt
           Demo.world None).
  by vm_compute.
Defined.

(** ** [checkin]: the request, and when files change *)

Section CheckInMore.

Variable Join : string → string → string.
Variable url_error : string → option error.
Variable time_Format_RFC1123 : Z → string.
Variable time_Parse_RFC1123 : string → result Z.
Variable CryptoHandler : Type.
Variable UnmarshallBuffer :
  option CryptoHandler → string → bool → ConfigStruct * option error.
Variable UnmarshallFile :
  option CryptoHandler → string → bool → World → ConfigStruct * option error.

Local Abbreviation extract := (extract Join CryptoHandler).
Local Abbreviation checkin_request := (checkin_request url_error time_Format_RFC1123).
Local Abbreviation checkin_200 :=
  (checkin_200 Join time_Parse_RFC1123 CryptoHandler UnmarshallBuffer UnmarshallFile).
Local Abbreviation checkin_response :=
  (checkin_response Join time_Parse_RFC1123 CryptoHandler UnmarshallBuffer
     UnmarshallFile).
Local Abbreviation checkin :=
  (checkin Join url_error time_Format_RFC1123 time_Parse_RFC1123 CryptoHandler
     UnmarshallBuffer UnmarshallFile).


(** X19. A URL that [http.NewRequest] cannot parse makes [checkin] return
    that error at once: no system call is made and nothing changes. *)
Theorem checkin_bad_url a client crypto w e :
  url_error (configUrl a) = Some e →
  checkin a client crypto w = (Some e, w).
Proof.
  intros Hurl. rewrite checkin_unfold.
  unfold checkin_request, http_NewRequest. by rewrite Hurl.
Qed.

(** X20. When the request fails ([client.Do] returns an error), [checkin]
    returns an error with the URL and the cause, and no file has
    changed. *)
Theorem checkin_transport_error a client crypto w req w0 e :
  checkin_request a w = (Ok req, w0) →
  client req = Err e →
  checkin a client crypto w
  = (Some (Errorf ("Unable to get: " +:+ configUrl a +:+ " - " +:+ Error e)), w0)
  ∧ nodes w0 = nodes w ∧ trace w0 = trace w.
Proof.
  intros Hreq Hdo. rewrite checkin_unfold, Hreq, Hdo.
  apply checkin_request_run in Hreq as [Hn [Ht _]].
  split; [done|]. split; [done|]. by rewrite Ht, app_nil_r.
Qed.

(** X21. [checkin] changes files only for a 200 response whose body could
    be read and decoded, once the previous bundle was loaded or found
    missing: in every other case the files are as they were. *)
Theorem checkin_changes_files_only_after_decoding a client crypto w req w0 res r w' :
  checkin_request a w = (Ok req, w0) →
  client req = Ok res →
  checkin a client crypto w = (r, w') →
  nodes w' ≠ nodes w →
  StatusCode res = 200 ∧ BodyErr res = None
  ∧ (UnmarshallBuffer (Some crypto) (Body res) true).2 = None
  ∧ load_error (UnmarshallFile None (EncryptedConfig a) false w0).2 = None.
Proof.
  intros Hreq Hdo. rewrite checkin_unfold, Hreq, Hdo.
  apply checkin_request_run in Hreq as [Hn _].
  unfold checkin_response, ioutil_ReadAll.
  destruct (Z.eqb_spec (StatusCode res) 200) as [H200|_].
  2:{ unfold mbind, M_bind, log_Printf, emit, ret, mret, M_ret.
      repeat case_match; intros [= <- <-] Hne; by destruct Hne. }
  destruct (BodyErr res) as [e|].
  { intros [= <- <-] Hne. by destruct Hne. }
  rewrite checkin_200_unfold.
  destruct (UnmarshallBuffer _ _ _) as [nextc [e|]].
  { intros [= <- <-] Hne. by destruct Hne. }
  destruct (UnmarshallFile _ _ _ w0) as [prevc perr]. simpl.
  destruct (load_error perr) as [e|].
  { intros [= <- <-] Hne. by destruct Hne. }
  done.
Qed.

(** X22. When [checkin] returns no error, the response had status 200
    and a body that could be read, the persisted bundle is that body, its
    temporary file is not on disk, and its modification time is the one
    parsed from the [Date] header, or the local time when the header does
    not parse. *)
Theorem checkin_nil_means_persisted a client crypto w req w0 res w' :
  checkin_request a w = (Ok req, w0) →
  client req = Ok res →
  checkin a client crypto w = (None, w') →
  StatusCode res = 200 ∧ BodyErr res = None
  ∧ on_disk w' (EncryptedConfig a) = Some (Body res)
  ∧ nodes w' !! tmp_of (EncryptedConfig a) = None
  ∧ mtime_of w' (EncryptedConfig a)
    = Some match time_Parse_RFC1123 (Header_Get (Header res) "Date") with
           | Ok t => t
           | Err _ => clock w
           end.
Proof.
  intros Hreq Hdo. rewrite checkin_unfold, Hreq, Hdo.
  apply checkin_request_run in Hreq as [_ (_ & _ & Hc0 & _)].
  unfold checkin_response, ioutil_ReadAll.
  destruct (Z.eqb_spec (StatusCode res) 200) as [H200|_].
  2:{ unfold mbind, M_bind, log_Printf, emit, ret, mret, M_ret.
      repeat case_match; intros [=]. }
  destruct (BodyErr res) as [e|]; [done|]. intros Hrun.
  split; [done|]. split; [done|].
  pose proof (checkin_200_mtime Join time_Parse_RFC1123 CryptoHandler
                UnmarshallBuffer UnmarshallFile a crypto res (Body res) w0 w' Hrun)
    as Hmt. rewrite Hc0 in Hmt.
  rewrite checkin_200_unfold in Hrun.
  destruct (UnmarshallBuffer _ _ _) as [nextc [e|]]; [done|].
  destruct (UnmarshallFile _ _ _ w0) as [prevc perr]. simpl in Hrun.
  destruct (load_error perr) as [e|]; [done|].
  destruct (extract _ _ _ w0) as [[e|] w1]; [done|].
  destruct (safeWrite _ _ w1) as [[e|] w2] eqn:Hsw; [done|].
  apply safeWrite_cases in Hsw as [(_ & Hn2 & _)|(? & ? & [=] & _)].
  pose proof (tmp_of_neq (EncryptedConfig a)) as Hne.
  assert (∀ t w3, nodes w3 = nodes w2 →
            (let '(err, w4) := os_Chtimes (EncryptedConfig a) t w3 in
             match err with
             | Some e =>
                 (Some (Errorw ("Unable to set modified time "
                                 +:+ EncryptedConfig a +:+ " - " +:+ Error e) e), w4)
             | None => (None, w4)
             end) = (None, w') →
            on_disk w' (EncryptedConfig a) = Some (Body res)
            ∧ nodes w' !! tmp_of (EncryptedConfig a) = None) as Hset.
  { intros t w3 Hn3. destruct (os_Chtimes _ _ w3) as [[e|] w4] eqn:Hch; [done|].
    intros [= <-].
    apply os_Chtimes_cases in Hch as [(_ & (n & Hl & Hn4) & _)|(? & [=] & _)].
    rewrite Hn3, Hn2, lookup_insert_eq in Hl. injection Hl as <-.
    unfold on_disk. rewrite Hn4, lookup_insert_eq, lookup_insert_ne by done.
    rewrite Hn3, Hn2, lookup_insert_ne, lookup_delete_eq by done.
    by destruct (written_content w1 (tmp_of (EncryptedConfig a)) (Body res)
                   (octal 6 4 0)) as [? ->]. }
  destruct (time_Parse_RFC1123 _) as [t|e].
  - destruct (Hset t w2 eq_refl Hrun). done.
  - destruct (Hset (clock w2) (set_trace _ w2) eq_refl Hrun). done.
Qed.

End CheckInMore.

Local Abbreviation demo_checkin_request :=
  (checkin_request Demo.url_error Demo.time_Format_RFC1123).
Local Abbreviation demo_checkin2 :=
  (checkin Demo.Join Demo.url_error Demo.time_Format_RFC1123
     Demo.time_Parse_RFC1123 unit Demo.UnmarshallBuffer Demo.UnmarshallFile).


Lemma checkin_bad_url_witness :
  checkin Demo.Join Demo2.strict_url_error Demo.time_Format_RFC1123
    Demo.time_Parse_RFC1123 unit Demo.UnmarshallBuffer Demo.UnmarshallFile
    Demo2.bad_app (Demo.serves Demo.response_200) tt Demo.world
  = (Some (Errorf "parse ::: missing protocol scheme"), Demo.world).
Proof.
  apply (checkin_bad_url Demo.Join Demo2.strict_url_error
           Demo.time_Format_RFC1123 Demo.time_Parse_RFC1123 unit
           Demo.UnmarshallBuffer Demo.UnmarshallFile Demo2.bad_app).
  done.
Defined.

Lemma checkin_transport_error_witness :
  demo_checkin2 Demo.app Demo2.unreachable tt Demo.world
  = (Some (Errorf ("Unable to get: " +:+ configUrl Demo.app +:+ " - "
                    +:+ Error (Errorf "dial tcp: i/o timeout"))), Demo.world)
  ∧ nodes Demo.world = nodes Demo.world ∧ trace Demo.world = trace Demo.world.
Proof.
  apply (checkin_transport_error Demo.Join Demo.url_error
           Demo.time_Format_RFC1123 Demo.time_Parse_RFC1123 unit
           Demo.UnmarshallBuffer Demo.UnmarshallFile Demo.app Demo2.unreachable tt
           Demo.world
           (conditional_request Demo.time_Format_RFC1123 "https://ota/config"
              (Some 50))).
  - by vm_compute.
  - done.
Defined.

Lemma checkin_changes_files_only_after_decoding_witness :
  StatusCode Demo.response_200 = 200 ∧ BodyErr Demo.response_200 = None
  ∧ (Demo.UnmarshallBuffer (Some tt) (Body Demo.response_200) true).2 = None
  ∧ load_error
      (Demo.UnmarshallFile None (EncryptedConfig Demo.app) false Demo.world).2
    = None.
Proof.
  apply (checkin_changes_files_only_after_decoding Demo.Join Demo.url_error
           Demo.time_Format_RFC1123 Demo.time_Parse_RFC1123 unit
           Demo.UnmarshallBuffer Demo.UnmarshallFile Demo.app
           (Demo.serves Demo.response_200) tt Demo.world
           (conditional_request Demo.time_Format_RFC1123 "https://ota/config"
              (Some 50))
           Demo.world Demo.response_200
           (demo_checkin2 Demo.app (Demo.serves Demo.response_200) tt Demo.world).1
           (demo_checkin2 Demo.app (Demo.serves Demo.response_200) tt Demo.world).2).
  - by vm_compute.
  - done.
  - by destruct (demo_checkin2 _ _ _ _).
  - intros Heq.
    apply (f_equal (λ m : gmap string node, m !! "/run/secrets/b.conf")) in Heq.
    by vm_compute in Heq.
Defined.

Lemma checkin_nil_means_persisted_witness :
  StatusCode Demo.response_200 = 200 ∧ BodyErr Demo.response_200 = None
  ∧ on_disk (demo_checkin2 Demo.app (Demo.serves Demo.response_200) tt Demo.world).2
      (EncryptedConfig Demo.app) = Some (Body Demo.response_200)
  ∧ nodes (demo_checkin2 Demo.app (Demo.serves Demo.response_200) tt Demo.world).2
      !! tmp_of (EncryptedConfig Demo.app) = None
  ∧ mtime_of
      (demo_checkin2 Demo.app (Demo.serves Demo.response_200) tt Demo.world).2
      (EncryptedConfig Demo.app)
    = Some match Demo.time_Parse_RFC1123
                   (Header_Get (Header Demo.response_200) "Date") with
           | Ok t => t
           | Err _ => clock Demo.world
           end.
Proof.
  apply (checkin_nil_means_persisted Demo.Join Demo.url_error
           Demo.time_Format_RFC1123 Demo.time_Parse_RFC1123 unit
           Demo.UnmarshallBuffer Demo.UnmarshallFile Demo.app
           (Demo.serves Demo.response_200) tt Demo.world
           (conditional_request Demo.time_Format_RFC1123 "https://ota/config"
              (Some 50))
           Demo.world Demo.response_200).
  - by vm_compute.
  - done.
  - by vm_compute.
Defined.

(** ** The earlier revision: [safeWrite], [Extract], [CheckIn] *)

Lemma Legacy_os_OpenFile_cases path perm w r w' :
  Legacy.os_OpenFile path perm w = (r, w') →
  (∃ e, r = Some e ∧ nodes w' = nodes w ∧ run_of w w' [])
  ∨ (r = None
     ∧ ((∃ c mode mt, nodes w !! path = Some (File c mode mt)
                      ∧ nodes w' = nodes w ∧ run_of w w' [])
        ∨ (nodes w !! path = None
           ∧ nodes w' = <[path := File "" (Z.land perm (Z.lnot (umask w))) (clock w)]>
                          (nodes w)
           ∧ run_of w w' [EvOpenFile path perm]))).
Proof.
  prim_cases w; intros H;
    destruct (m !! path) as [[cur mode mt|mt]|] eqn:Hn; simplify_eq/=;
    first
      [ left; eexists; split; [done|]; split; [done|]; run_of_now
      | right; split; [done|]; left; do 3 eexists; split; [done|];
        split; [done|]; run_of_now
      | right; split; [done|]; right; split; [done|]; split; [done|]; run_of_now ].
Qed.

Lemma Legacy_io_Copy_cases path data read_err w r w' :
  Legacy.io_Copy path data read_err w = (r, w') →
  (∃ e, r = Some e ∧ nodes w' = nodes w ∧ run_of w w' [])
  ∨ (∃ n written, nodes w !! path = Some n
       ∧ nodes w' = <[path := Legacy.copied n written (clock w)]> (nodes w)
       ∧ run_of w w' [EvCopy path written]
       ∧ (r = None → written = data ∧ read_err = None)
       ∧ (quiet w → written = data ∧ r = read_err)).
Proof.
  unfold quiet. prim_cases w; intros H;
    destruct (m !! path) as [n|] eqn:Hn; simplify_eq/=;
    first
      [ left; eexists; split; [done|]; split; [done|]; run_of_now
      | right; do 2 eexists; split; [done|]; split; [done|];
        split; [run_of_now|]; split; [done|]; try done;
        by intros [? _]%Forall_cons ].
Qed.

Lemma Legacy_safeWrite_unfold input path w :
  Legacy.safeWrite input path w =
    let '(err, w1) := Legacy.os_OpenFile (tmp_of path) (octal 6 4 4) w in
    match err with
    | Some e =>
        (Some (Errorw ("Unable to create new secrets: " +:+ path +:+ " - "
                        +:+ Error e) e), w1)
    | None =>
        let '(err, w2) :=
          Legacy.io_Copy (tmp_of path) (Body input) (BodyErr input) w1 in
        match err with
        | Some e =>
            (Some (Errorw ("Unable to copy secrets to: " +:+ path +:+ " - "
                            +:+ Error e) e), w2)
        | None =>
            let '(err, w3) := os_Rename (tmp_of path) path w2 in
            match err with
            | Some e =>
                (Some (Errorw ("Unable to link secrets to: " +:+ path +:+ " - "
                                +:+ Error e) e), w3)
            | None => (None, w3)
            end
        end
    end.
Proof.
  unfold Legacy.safeWrite, tmp_of, mbind, M_bind.
  destruct (Legacy.os_OpenFile _ _ w) as [[e|] w1]; [done|].
  destruct (Legacy.io_Copy _ _ _ w1) as [[e|] w2]; [done|].
  by destruct (os_Rename _ _ w2) as [[e|] w3].
Qed.

(** X23. The earlier [safeWrite] opens the temporary file without
    truncating it: over a temporary file left by an earlier run, what is
    put in place is the body followed by whatever the old file had beyond
    the length of the body. *)
Theorem Legacy_safeWrite_keeps_stale_tail input path w w' old mode mtime :
  Legacy.safeWrite input path w = (None, w') →
  nodes w !! tmp_of path = Some (File old mode mtime) →
  on_disk w' path = Some (Legacy.overwrite old (Body input)).
Proof.
  rewrite Legacy_safeWrite_unfold. intros Hrun Hstale.
  destruct (Legacy.os_OpenFile _ _ w) as [[e|] w1] eqn:Hop; [done|].
  apply Legacy_os_OpenFile_cases in Hop
    as [(? & [=] & _)|(_ & [(c & m & mt & Hl & Hn1 & Hr1)|(Hl & _)])];
    [|congruence].
  destruct (Legacy.io_Copy _ _ _ w1) as [[e|] w2] eqn:Hcp; [done|].
  apply Legacy_io_Copy_cases in Hcp
    as [(? & [=] & _)|(n & wr & Hl2 & Hn2 & Hr2 & Hok & _)].
  destruct (Hok eq_refl) as [-> _].
  destruct (os_Rename _ _ w2) as [[e|] w3] eqn:Hrn; [done|].
  apply os_Rename_cases in Hrn as [(_ & (n3 & Hl3 & Hn3) & _)|(? & [=] & _)].
  injection Hrun as <-. unfold on_disk. rewrite Hn3, lookup_insert_eq.
  rewrite Hn2, lookup_insert_eq in Hl3. injection Hl3 as <-.
  rewrite Hn1, Hstale in Hl2. by injection Hl2 as <-.
Qed.

(** X24. The earlier [safeWrite] has no cleanup: when it returns an error
    the target is as it was, and the temporary file, if it was there
    before or if anything was done, is still on disk. *)
Theorem Legacy_safeWrite_error_leaves_tmp input path w e w' :
  Legacy.safeWrite input path w = (Some e, w') →
  nodes w' !! path = nodes w !! path
  ∧ (is_Some (nodes w !! tmp_of path) ∨ trace w' ≠ trace w →
     is_Some (nodes w' !! tmp_of path)).
Proof.
  rewrite Legacy_safeWrite_unfold. intros Hrun.
  pose proof (tmp_of_neq path) as Hne.
  destruct (Legacy.os_OpenFile _ _ w) as [err1 w1] eqn:Hop.
  apply Legacy_os_OpenFile_cases in Hop
    as [(e1 & -> & Hn1 & Ht1 & _)|(-> & Hopen)].
  { injection Hrun as <- <-. rewrite Hn1. split; [done|].
    intros [?|Hch]; [done|]. rewrite Ht1, app_nil_r in Hch. by destruct Hch. }
  assert (is_Some (nodes w1 !! tmp_of path)
          ∧ nodes w1 !! path = nodes w !! path) as [Htmp1 Hp1].
  { destruct Hopen as [(c & m & mt & Hl & -> & _)|(Hl & -> & _)].
    - by rewrite Hl.
    - by rewrite lookup_insert_eq, lookup_insert_ne. }
  destruct (Legacy.io_Copy _ _ _ w1) as [err2 w2] eqn:Hcp.
  assert (is_Some (nodes w2 !! tmp_of path)
          ∧ nodes w2 !! path = nodes w !! path) as [Htmp2 Hp2].
  { apply Legacy_io_Copy_cases in Hcp
      as [(e2 & _ & -> & _)|(n & wr & _ & -> & _)]; [done|].
    by rewrite lookup_insert_eq, lookup_insert_ne. }
  destruct err2 as [e2|]; [by injection Hrun as <- <-|].
  destruct (os_Rename _ _ w2) as [[e3|] w3] eqn:Hrn; [|done].
  apply os_Rename_cases in Hrn as [([=] & _)|(? & _ & Hn3 & _)].
  injection Hrun as <- <-. by rewrite Hn3.
Qed.

Section LegacyMore.

Variable Join : string → string → string.
Variable url_error : string → option error.
Variable time_Format_RFC1123 : Z → string.
Variable PrivateKey : Type.
Variable Unmarshall : PrivateKey → string → World → ConfigStruct * option error.

Local Abbreviation Extract_loop := (Legacy.Extract_loop Join).
Local Abbreviation Extract := (Legacy.Extract Join PrivateKey Unmarshall).
Local Abbreviation CheckIn :=
  (Legacy.CheckIn Join url_error time_Format_RFC1123 PrivateKey Unmarshall).

Lemma Legacy_Extract_loop_trace dir l : ∀ w w',
  Extract_loop dir l w = (None, w') →
  trace w' = trace w ++ legacy_writes Join dir l.
Proof.
  induction l as [|[f c] rest IH]; intros w w'; simpl.
  - unfold ret, mret, M_ret. intros [= <-]. by rewrite app_nil_r.
  - unfold mbind, M_bind, log_Printf, emit. simpl.
    destruct (ioutil_WriteFile _ _ _ _) as [[e|] w1] eqn:Hwr; [done|].
    apply ioutil_WriteFile_cases in Hwr as [(_ & _ & Ht & _)|(? & [=] & _)].
    intros Hrest%IH. rewrite Hrest, Ht. simpl. by rewrite <-!app_assoc.
Qed.

(** X25. An earlier [Extract] that returns no error has written the file
    of every entry of the bundle, in turn, with mode 0644, whether or not
    the disk had it already, and has done nothing else: no hook is run
    and no file is removed. *)
Theorem Legacy_Extract_writes_every_entry a w w' :
  Extract a w = (None, w') →
  trace w' = trace w ++
    legacy_writes Join (Legacy.SecretsDir PrivateKey a)
      (entries (Unmarshall (Legacy.PrivKey PrivateKey a)
                  (Legacy.EncryptedConfig PrivateKey a)
                  (os_Stat (Legacy.SecretsDir PrivateKey a) w).2).1).
Proof.
  unfold Extract, Legacy.Extract, mbind, M_bind, get_world.
  destruct (os_Stat _ w) as [[fi|e] w0] eqn:Hst; [|done].
  apply os_Stat_cases in Hst as (_ & [Ht _] & _). simpl.
  destruct (Unmarshall _ _ w0) as [config [e|]]; [done|].
  intros Hloop%Legacy_Extract_loop_trace. by rewrite Hloop, Ht, app_nil_r.
Qed.

(** X26. With a URL that [http.NewRequest] cannot parse, the earlier
    [CheckIn] drops the error and panics on the nil request; no file has
    changed. *)
Theorem Legacy_CheckIn_bad_url_panics a w e :
  url_error (Legacy.configUrl PrivateKey a) = Some e →
  ∃ w', CheckIn a w
        = (Panics "invalid memory address or nil pointer dereference", w')
    ∧ nodes w' = nodes w ∧ trace w' = trace w.
Proof.
  intros Hurl. unfold CheckIn, Legacy.CheckIn, mbind, M_bind.
  destruct (os_Stat _ w) as [st w0] eqn:Hst.
  apply os_Stat_cases in Hst as (Hn & [Ht _] & _). rewrite Hurl.
  exists w0. split; [done|]. split; [done|]. by rewrite Ht, app_nil_r.
Qed.

End LegacyMore.

Lemma Legacy_safeWrite_keeps_stale_tail_witness :
  on_disk (Legacy.safeWrite Demo.response_200 "/var/sota/config.encrypted"
             Demo2.stale_world).2 "/var/sota/config.encrypted"
  = Some "bundle-289abcdef".
Proof.
  apply (Legacy_safeWrite_keeps_stale_tail Demo.response_200
           "/var/sota/config.encrypted" Demo2.stale_world
           (Legacy.safeWrite Demo.response_200 "/var/sota/config.encrypted"
              Demo2.stale_world).2 "0123456789abcdef" (octal 6 6 6) 40).
  - by vm_compute.
  - by vm_compute.
Defined.

(** The rename is refused: the bundle is as it was and the temporary file
    stays, with the body. *)
Lemma Legacy_safeWrite_error_leaves_tmp_witness :
  let w := mkWorld Demo.disk (octal 0 2 2) 500 [None; None; Some (Fail Permission)] [] in
  let run := Legacy.safeWrite Demo.response_200 "/var/sota/config.encrypted" w in
  nodes run.2 !! "/var/sota/config.encrypted" = nodes w !! "/var/sota/config.encrypted"
  ∧ (is_Some (nodes w !! tmp_of "/var/sota/config.encrypted")
     ∨ trace run.2 ≠ trace w →
     is_Some (nodes run.2 !! tmp_of "/var/sota/config.encrypted")).
Proof.
  cbv zeta.
  destruct (Legacy.safeWrite Demo.response_200 "/var/sota/config.encrypted"
              (mkWorld Demo.disk (octal 0 2 2) 500
                 [None; None; Some (Fail Permission)] []))
    as [[e|] w'] eqn:Hrun.
  - exact (Legacy_safeWrite_error_leaves_tmp _ _ _ e w' Hrun).
  - by vm_compute in Hrun.
Defined.

Lemma Legacy_Extract_writes_every_entry_witness :
  trace (Legacy.Extract Demo.Join unit Demo.Unmarshall
           (Demo.legacy_app Demo.response_200) Demo.world).2
  = [EvLog "Extracting %s" ["a.conf"];
     EvWriteFile "/run/secrets/a.conf" "old" (octal 6 4 4);
     EvLog "Extracting %s" ["c.conf"];
     EvWriteFile "/run/secrets/c.conf" "secretC" (octal 6 4 4)].
Proof.
  apply (Legacy_Extract_writes_every_entry Demo.Join unit Demo.Unmarshall
           (Demo.legacy_app Demo.response_200) Demo.world).
  by vm_compute.
Defined.

Lemma Legacy_CheckIn_bad_url_panics_witness :
  ∃ w', Legacy.CheckIn Demo.Join Demo2.strict_url_error Demo.time_Format_RFC1123
          unit Demo.Unmarshall
          (Legacy.mkApp unit tt "/var/sota/config.encrypted" "/run/secrets"
             (Demo.serves Demo.response_200) "::") Demo.world
        = (Panics "invalid memory address or nil pointer dereference", w')
    ∧ nodes w' = nodes Demo.world ∧ trace w' = trace Demo.world.
Proof.
  apply (Legacy_CheckIn_bad_url_panics Demo.Join Demo2.strict_url_error
           Demo.time_Format_RFC1123 unit Demo.Unmarshall
           (Legacy.mkApp unit tt "/var/sota/config.encrypted" "/run/secrets"
              (Demo.serves Demo.response_200) "::") Demo.world
           (Errorf "parse ::: missing protocol scheme")).
  done.
Defined.

(** ** Hooks, and the first run *)

Section Hooks.

Variable Join : string → string → string.
Variable CryptoHandler : Type.

Local Abbreviation extract := (extract Join CryptoHandler).

(** X27. Every command that [extract] runs is the hook of an entry, run
    with [CONFIG_FILE] set to the path of that entry's file: the hook of an
    entry of [next], or the hook that [prev] has for a name that [next]
    has not. *)
Theorem extract_runs_only_entry_hooks a crypto cfg w r w' ev f argv config_file :
  extract a crypto cfg w = (r, w') →
  trace w' = trace w ++ ev →
  EvExec f argv config_file ∈ ev →
  config_file = Join (SecretsDir a) f
  ∧ ∃ c, argv = OnChanged c
         ∧ ((f, c) ∈ entries (next cfg)
            ∨ ((f, c) ∈ entries (prev cfg) ∧ f ∉ names (next cfg))).
Proof.
  rewrite extract_unfold. set (dir := SecretsDir a) in *.
  destruct (os_Stat dir w) as [st w0] eqn:Hst.
  apply os_Stat_cases in Hst as (_ & Hr0 & _).
  assert (∀ w1 upd rm, run_of w0 w1 upd → run_of w1 w' rm →
            Forall (update_event Join dir (entries (next cfg))) upd →
            Forall (remove_event Join dir (entries (prev cfg))
                      (list_to_set (entries (next cfg)).*1 ∪ ∅)) rm →
            trace w' = trace w ++ ev → EvExec f argv config_file ∈ ev →
            config_file = Join dir f
            ∧ ∃ c, argv = OnChanged c
                   ∧ ((f, c) ∈ entries (next cfg)
                      ∨ ((f, c) ∈ entries (prev cfg) ∧ f ∉ names (next cfg))))
    as Hall.
  { intros w1 upd rm Hru Hrr Hupd Hrm Htr Hin.
    assert (run_of w w' ([] ++ upd ++ rm)) as [Htr' _] by run_chain.
    rewrite Htr in Htr'. apply app_inv_head in Htr'. subst ev. simpl in Hin.
    apply elem_of_app in Hin as [Hin|Hin].
    - eapply Forall_forall in Hupd; [|done].
      destruct Hupd as (c & Hc & -> & ->).
      split; [done|]. exists c. split; [done|]. by left.
    - eapply Forall_forall in Hrm; [|done].
      destruct Hrm as (c & Hc & Hns & -> & ->).
      split; [done|]. exists c. split; [done|]. right. split; [done|].
      unfold names. set_solver. }
  destruct st as [fi|e].
  2:{ intros [= <- <-]. apply (Hall w0 [] []); (apply run_of_refl || constructor). }
  destruct (extract_update Join dir _ ∅ w0) as [[seen err] w1] eqn:Hup.
  apply extract_update_run in Hup as (upd & Hru & Hevu & _ & Hseen).
  destruct err as [e|].
  { intros [= <- <-]. apply (Hall w1 upd []); try done;
      (apply run_of_refl || constructor). }
  specialize (Hseen eq_refl). subst seen.
  rewrite extract_remove_prev. intros (rm & Hrr & Hevr & _)%extract_remove_run.
  by apply (Hall w1 upd rm).
Qed.

End Hooks.

Section FirstRun.

Variable Join : string → string → string.
Variable url_error : string → option error.
Variable time_Format_RFC1123 : Z → string.
Variable time_Parse_RFC1123 : string → result Z.
Variable CryptoHandler : Type.
Variable UnmarshallBuffer :
  option CryptoHandler → string → bool → ConfigStruct * option error.
Variable UnmarshallFile :
  option CryptoHandler → string → bool → World → ConfigStruct * option error.

Local Abbreviation checkin_request := (checkin_request url_error time_Format_RFC1123).
Local Abbreviation checkin :=
  (checkin Join url_error time_Format_RFC1123 time_Parse_RFC1123 CryptoHandler
     UnmarshallBuffer UnmarshallFile).

(** X28. On a device that has no previous bundle (loading it gives nil),
    a [checkin] that returns no error has removed nothing. *)
Theorem checkin_first_run_removes_nothing a client crypto w req w0 res perr w' :
  checkin_request a w = (Ok req, w0) →
  client req = Ok res →
  UnmarshallFile None (EncryptedConfig a) false w0 = (None, perr) →
  checkin a client crypto w = (None, w') →
  ∃ ev, trace w' = trace w ++ ev ∧ Forall (λ e, is_removal e = false) ev.
Proof.
  intros Hreq Hdo Hprev. rewrite checkin_unfold, Hreq, Hdo.
  apply checkin_request_run in Hreq as [_ Hr0].
  unfold checkin_response, ioutil_ReadAll.
  destruct (Z.eqb_spec (StatusCode res) 200) as [H200|_].
  2:{ unfold mbind, M_bind, log_Printf, emit, ret, mret, M_ret.
      repeat case_match; intros [=]. }
  destruct (BodyErr res) as [e|]; [done|].
  rewrite checkin_200_unfold, Hprev.
  destruct (UnmarshallBuffer _ _ _) as [nextc [e|]]; [done|].
  destruct (load_error perr) as [e|]; [done|].
  rewrite extract_unfold.
  destruct (os_Stat (SecretsDir a) w0) as [[fi|e] w1] eqn:Hst; [|done].
  apply os_Stat_cases in Hst as (_ & Hr1 & _).
  destruct (extract_update Join _ _ ∅ w1) as [[seen [e|]] w2] eqn:Hup; [done|].
  apply extract_update_complete in Hup as (upd & Hr2 & Hnorm & _). simpl.
  destruct (safeWrite _ _ w2) as [[e|] w3] eqn:Hsw; [done|].
  apply safeWrite_cases in Hsw as [(_ & _ & Hr3)|(? & ? & [=] & _)].
  assert (∀ t w4 ev4, run_of w3 w4 ev4 → Forall (λ e, is_removal e = false) ev4 →
            (let '(err, w5) := os_Chtimes (EncryptedConfig a) t w4 in
             match err with
             | Some e =>
                 (Some (Errorw ("Unable to set modified time "
                                 +:+ EncryptedConfig a +:+ " - " +:+ Error e) e), w5)
             | None => (None, w5)
             end) = (None, w') →
            ∃ ev, trace w' = trace w ++ ev ∧ Forall (λ e, is_removal e = false) ev)
    as Hset.
  { intros t w4 ev4 Hr4 Hev4.
    destruct (os_Chtimes _ _ w4) as [[e|] w5] eqn:Hch; [done|]. intros [= <-].
    apply os_Chtimes_cases in Hch as [(_ & _ & Hr5)|(? & [=] & _)].
    eexists. split.
    - assert (run_of w w5 ([] ++ [] ++ upd ++ _ ++ ev4 ++ _)) as [-> _]
        by run_chain. done.
    - simpl. apply Forall_app. split; [done|].
      repeat (apply Forall_cons; split; [done|]).
      apply Forall_app. split; [done|]. by repeat constructor. }
  destruct (time_Parse_RFC1123 _) as [t|e].
  - apply (Hset t w3 []); [apply run_of_refl|constructor].
  - intros Hrun. eapply (Hset (clock w3)); [apply run_of_emit| |exact Hrun].
    by repeat constructor.
Qed.

End FirstRun.

Lemma extract_runs_only_entry_hooks_witness :
  "/run/secrets/c.conf" = Demo.Join (SecretsDir Demo.app) "c.conf"
  ∧ ∃ c, ["/bin/reload"; "c"] = OnChanged c
         ∧ (("c.conf", c) ∈ entries Demo.next2
            ∨ (("c.conf", c) ∈ entries Demo.prev1 ∧ "c.conf" ∉ names Demo.next2)).
Proof.
  apply (extract_runs_only_entry_hooks Demo.Join unit Demo.app tt
           (mkSnapshot Demo.prev1 Demo.next2) Demo.world None Demo.applied
           (trace Demo.applied)).
  - by vm_compute.
  - done.
  - by_computation.
Defined.

(** A device with an empty secrets directory and no bundle is served
    bundle-2. *)
Lemma checkin_first_run_removes_nothing_witness :
  let w := mkWorld Demo.empty_disk (octal 0 2 2) 500 [] [] in
  ∃ ev,
    trace (checkin Demo.Join Demo.url_error Demo.time_Format_RFC1123
             Demo.time_Parse_RFC1123 unit Demo.UnmarshallBuffer Demo.UnmarshallFile
             Demo.app (Demo.serves Demo.response_200) tt w).2 = trace w ++ ev
    ∧ Forall (λ e, is_removal e = false) ev.
Proof.
  apply (checkin_first_run_removes_nothing Demo.Join Demo.url_error
           Demo.time_Format_RFC1123 Demo.time_Parse_RFC1123 unit
           Demo.UnmarshallBuffer Demo.UnmarshallFile Demo.app
           (Demo.serves Demo.response_200) tt
           (mkWorld Demo.empty_disk (octal 0 2 2) 500 [] [])
           (conditional_request Demo.time_Format_RFC1123 "https://ota/config" None)
           (mkWorld Demo.empty_disk (octal 0 2 2) 500 [] []) Demo.response_200
           (Some (Errorw "Unable to read /var/sota/config.encrypted"
                    (PathError "open" "/var/sota/config.encrypted" ENOENT)))).
  - by vm_compute.
  - done.
  - by vm_compute.
  - by vm_compute.
Defined.
